(** * Radio-button value accessor and its registry

    A shallow embedding of
    [packages/forms/src/directives/radio_control_value_accessor.ts]:
    the class [RadioControlRegistry] (add / remove / select) and the class
    [RadioControlValueAccessor] (writeValue, registerOnChange, fireUncheck,
    the name check run by ngOnInit and the [_parsedName] getter).

    Objects live in a store and are named by references (natural numbers),
    so that [===] on objects is equality of references.  Methods are
    functions from worlds to worlds; calls that leave the file (the
    renderer, the change callback) are recorded in a trace. *)

From Stdlib Require Import String Ascii Bool Arith PeanoNat Lia Floats List.
Import ListNotations.

Open Scope string_scope.
Open Scope list_scope.

(* ================================================================= *)
(** ** JavaScript values *)

Module Js.

(** What an [any]-typed field can hold.  Numbers are IEEE doubles;
    objects are known by their reference only. *)
Inductive value : Type :=
| VUndefined
| VNull
| VBool (b : bool)
| VNumber (x : float)
| VString (s : string)
| VObject (ref : nat).

(** [x === y]: no coercion, so values of different types are never equal.
    On numbers this is IEEE equality (NaN differs from itself, the two
    zeros are equal); on objects it is identity. *)
Definition strict_eq (x y : value) : bool :=
  match x, y with
  | VUndefined, VUndefined => true
  | VNull, VNull => true
  | VBool a, VBool b => Bool.eqb a b
  | VNumber a, VNumber b => PrimFloat.eqb a b
  | VString a, VString b => String.eqb a b
  | VObject a, VObject b => Nat.eqb a b
  | _, _ => false
  end.

(** A field declared [string] that the framework may leave unset. *)
Inductive str : Type :=
| SUndefined
| SNull
| SString (s : string).

(** Truthiness of such a field: set, and not the empty string. *)
Definition truthy (x : str) : bool :=
  match x with
  | SString EmptyString => false
  | SString _ => true
  | _ => false
  end.

(** [x == null] *)
Definition nullish (x : str) : bool :=
  match x with
  | SString _ => false
  | _ => true
  end.

(** [x === y] on such fields. *)
Definition str_eq (x y : str) : bool :=
  match x, y with
  | SUndefined, SUndefined => true
  | SNull, SNull => true
  | SString a, SString b => String.eqb a b
  | _, _ => false
  end.

(** The text a template literal substitutes for [${x}]. *)
Definition to_text (x : str) : string :=
  match x with
  | SUndefined => "undefined"
  | SNull => "null"
  | SString s => s
  end.

(** Truthiness of a plain string. *)
Definition nonempty (s : string) : bool :=
  match s with
  | EmptyString => false
  | String _ _ => true
  end.

(** [x === y] on references that may be null. *)
Definition ref_eq (x y : option nat) : bool :=
  match x, y with
  | None, None => true
  | Some a, Some b => Nat.eqb a b
  | _, _ => false
  end.

(** [a[i] = x] for [i] inside the array. *)
Fixpoint assign {A : Type} (l : list A) (i : nat) (x : A) : list A :=
  match l, i with
  | [], _ => []
  | _ :: t, 0 => x :: t
  | h :: t, S j => h :: assign t j x
  end.

(** [a.splice(i, n)]: the array without the [n] entries from index [i]. *)
Definition splice {A : Type} (l : list A) (i n : nat) : list A :=
  firstn i l ++ skipn (i + n) l.

End Js.

(* ================================================================= *)
(** ** The collaborators imported by the file *)

(** Modelled from the spec: the class [AbstractControl] of [../model], of
    which the file reads [parent] and, to tell a [FormArray], the presence
    of the method [at].  The model tree owns its nodes top-down and
    [parent] is a back-pointer, so a node is given here by what the file
    can see of it: whether it has [at], and its chain of parents. *)
Inductive AbstractControl : Type :=
| Root (has_at : bool)
| Child (has_at : bool) (up : AbstractControl).

Module AbstractControl.

Definition parent (c : AbstractControl) : option AbstractControl :=
  match c with
  | Root _ => None
  | Child _ p => Some p
  end.

Definition at_ (c : AbstractControl) : bool :=
  match c with
  | Root b => b
  | Child b _ => b
  end.

End AbstractControl.

Module ControlContainer.
(** Modelled from the spec: the class [ControlContainer] (the type of
    [NgControl._parent]); the file reads its [control]. *)
Record t : Type := mk { control : option AbstractControl }.
End ControlContainer.

Module NgControl.
(** Modelled from the spec: the class [NgControl] of [./ng_control], the
    control handle.  [_parent] is a reference to a container or null,
    [path] is a stored, mutable array of segments or null, [control] is
    the model node or null while it is unresolved. *)
Record t : Type := mk {
  _parent : option nat;
  path : option (list Js.str);
  control : option AbstractControl
}.

Definition with_path (p : list Js.str) (c : t) : t :=
  mk (_parent c) (Some p) (control c).
End NgControl.

(* ================================================================= *)
(** ** The accessor object and the world *)

(** The arrow function held in [onChange]: the initial no-op, or the
    closure built by [registerOnChange], which captures [fn] and [this]. *)
Inductive ChangeHook : Type :=
| NoChange
| OnChange (fn : nat) (this : nat).

(** The function held in [onTouched]. *)
Inductive TouchedHook : Type :=
| NoTouched
| OnTouched (fn : nat).

Record RadioControlValueAccessor : Type := mkAccessor {
  _state : option bool;          (* undefined until the first write *)
  _control : nat;                (* declared [NgControl]; set by ngOnInit *)
  _fn : option nat;
  onChange : ChangeHook;
  onTouched : TouchedHook;
  name : Js.str;
  formControlName : Js.str;
  value : Js.value;
  _elementRef : nat;             (* the native element *)
  _injector : nat                (* what [_injector.get(NgControl)] yields *)
}.

(** What leaves the file, in the order it happens.  [FireUncheck] marks
    the entry into [fireUncheck], so that the calls made by [select] can
    be counted. *)
Inductive Event : Type :=
| SetProperty (element : nat) (property : string) (v : Js.value)
| Callback (fn : nat) (v : Js.value)
| Touched (fn : nat)
| FireUncheck (accessor : nat) (v : Js.value).

(** One injection scope: the objects, the registry's private array
    [_accessors] of pairs [[control, accessor]], and the trace. *)
Record World : Type := mkWorld {
  accessors : nat -> RadioControlValueAccessor;
  controls : nat -> NgControl.t;
  containers : nat -> ControlContainer.t;
  _accessors : list (nat * nat);
  trace : list Event
}.

Definition store {A : Type} (m : nat -> A) (r : nat) (x : A) : nat -> A :=
  fun r' => if Nat.eqb r' r then x else m r'.

Definition with_accessor (r : nat) (a : RadioControlValueAccessor) (w : World) : World :=
  mkWorld (store (accessors w) r a) (controls w) (containers w) (_accessors w) (trace w).

Definition with_control (r : nat) (c : NgControl.t) (w : World) : World :=
  mkWorld (accessors w) (store (controls w) r c) (containers w) (_accessors w) (trace w).

Definition with_registry (l : list (nat * nat)) (w : World) : World :=
  mkWorld (accessors w) (controls w) (containers w) l (trace w).

Definition emit (e : Event) (w : World) : World :=
  mkWorld (accessors w) (controls w) (containers w) (_accessors w) (trace w ++ [e]).

Definition set_state (s : option bool) (a : RadioControlValueAccessor) : RadioControlValueAccessor :=
  mkAccessor s (_control a) (_fn a) (onChange a) (onTouched a) (name a)
    (formControlName a) (value a) (_elementRef a) (_injector a).

Definition set_control (c : nat) (a : RadioControlValueAccessor) : RadioControlValueAccessor :=
  mkAccessor (_state a) c (_fn a) (onChange a) (onTouched a) (name a)
    (formControlName a) (value a) (_elementRef a) (_injector a).

Definition set_name (n : Js.str) (a : RadioControlValueAccessor) : RadioControlValueAccessor :=
  mkAccessor (_state a) (_control a) (_fn a) (onChange a) (onTouched a) n
    (formControlName a) (value a) (_elementRef a) (_injector a).

Definition set_onChange (fn : nat) (h : ChangeHook) (a : RadioControlValueAccessor) : RadioControlValueAccessor :=
  mkAccessor (_state a) (_control a) (Some fn) h (onTouched a) (name a)
    (formControlName a) (value a) (_elementRef a) (_injector a).

Definition set_onTouched (h : TouchedHook) (a : RadioControlValueAccessor) : RadioControlValueAccessor :=
  mkAccessor (_state a) (_control a) (_fn a) (onChange a) h (name a)
    (formControlName a) (value a) (_elementRef a) (_injector a).

(* ================================================================= *)
(** ** RadioControlValueAccessor: writes *)

(** [writeValue(value)] *)
Definition writeValue (this : nat) (v : Js.value) (w : World) : World :=
  let self := accessors w this in
  let state := Js.strict_eq v (value self) in
  let w1 := with_accessor this (set_state (Some state) self) w in
  emit (SetProperty (_elementRef self) "checked" (Js.VBool state)) w1.

(** [fireUncheck(value)] *)
Definition fireUncheck (this : nat) (v : Js.value) (w : World) : World :=
  writeValue this v (emit (FireUncheck this v) w).

(** [setDisabledState(isDisabled)] *)
Definition setDisabledState (this : nat) (isDisabled : bool) (w : World) : World :=
  emit (SetProperty (_elementRef (accessors w this)) "disabled" (Js.VBool isDisabled)) w.

(* ================================================================= *)
(** ** RadioControlRegistry *)

(** [add(control, accessor)] *)
Definition add (control accessor : nat) (w : World) : World :=
  with_registry (_accessors w ++ [(control, accessor)]) w.

(** The loop of [remove]: [n] is [i + 1], the entries below [n] are still
    to be looked at, from the last one down.  [i] never leaves the array,
    since it starts at [length - 1]. *)
Fixpoint remove_scan (accessor : nat) (l : list (nat * nat)) (n : nat) : list (nat * nat) :=
  match n with
  | 0 => l
  | S i =>
      match nth_error l i with
      | Some c => if Nat.eqb (snd c) accessor then Js.splice l i 1
                  else remove_scan accessor l i
      | None => remove_scan accessor l i
      end
  end.

(** [remove(accessor)] *)
Definition remove (accessor : nat) (w : World) : World :=
  with_registry (remove_scan accessor (_accessors w) (length (_accessors w))) w.

(** [_isSameGroup(controlPair, accessor)] *)
Definition _isSameGroup (w : World) (controlPair : nat * nat) (accessor : nat) : bool :=
  match NgControl.control (controls w (fst controlPair)) with
  | None => false
  | Some _ =>
      Js.ref_eq (NgControl._parent (controls w (fst controlPair)))
                (NgControl._parent (controls w (_control (accessors w accessor))))
      && Js.str_eq (name (accessors w (snd controlPair))) (name (accessors w accessor))
  end.

(** The callback that [select] hands to [forEach]. *)
Definition select_visit (accessor : nat) (w : World) (c : nat * nat) : World :=
  if _isSameGroup w c accessor && negb (Nat.eqb (snd c) accessor)
  then fireUncheck (snd c) (value (accessors w accessor)) w
  else w.

(** [select(accessor)] *)
Definition select (accessor : nat) (w : World) : World :=
  fold_left (select_visit accessor) (_accessors w) w.

(* ================================================================= *)
(** ** RadioControlValueAccessor: hooks *)

(** The change callback is code of the forms model; calling it is
    recorded. *)
Definition call (fn : nat) (v : Js.value) (w : World) : World :=
  emit (Callback fn v) w.

(** [registerOnChange(fn)] *)
Definition registerOnChange (this : nat) (fn : nat) (w : World) : World :=
  with_accessor this (set_onChange fn (OnChange fn this) (accessors w this)) w.

(** [registerOnTouched(fn)] *)
Definition registerOnTouched (this : nat) (fn : nat) (w : World) : World :=
  with_accessor this (set_onTouched (OnTouched fn) (accessors w this)) w.

(** The host's [(change)] binding: [onChange()] on the accessor. *)
Definition host_change (accessor : nat) (w : World) : World :=
  match onChange (accessors w accessor) with
  | NoChange => w
  | OnChange fn this =>
      let w1 := call fn (value (accessors w this)) w in
      select this w1
  end.

(** The host's [(blur)] binding: [onTouched()] on the accessor. *)
Definition host_blur (accessor : nat) (w : World) : World :=
  match onTouched (accessors w accessor) with
  | NoTouched => w
  | OnTouched fn => emit (Touched fn) w
  end.

(* ================================================================= *)
(** ** RadioControlValueAccessor: the name *)

Module ParsedAncestor.
Record t : Type := mk { name : Js.str; isArray : bool }.
End ParsedAncestor.

(** The loop that collects the ancestors, from [ancestor] upwards; the
    node without a parent is not collected. *)
Fixpoint collect_ancestors (ancestor : AbstractControl) : list AbstractControl :=
  match ancestor with
  | Root _ => []
  | Child _ up => ancestor :: collect_ancestors up
  end.

(** The ancestors of a control whose [_parent] is [parent], after
    [ancestors.reverse()]. *)
Definition ancestors_of (parent : ControlContainer.t) : list AbstractControl :=
  rev match ControlContainer.control parent with
      | None => []
      | Some ancestor => collect_ancestors ancestor
      end.

(** [ancestor && ancestor.at && true], as the condition it is used for. *)
Definition is_array (ancestor : option AbstractControl) : bool :=
  match ancestor with
  | None => false
  | Some a => AbstractControl.at_ a
  end.

(** The loop over [i < path.length] that fills [parsedAncestors]. *)
Definition parse_ancestors (path : list Js.str) (ancestors : list AbstractControl)
  : list ParsedAncestor.t :=
  map (fun i => ParsedAncestor.mk (nth i path Js.SUndefined)
                                  (is_array (nth_error ancestors i)))
      (seq 0 (length path)).

(** One turn of the loop that builds [parsedName]; the state is
    [(parsedName, isPreviousAncestorArray)]. *)
Definition name_step (st : string * bool) (parsedAncestor : ParsedAncestor.t) : string * bool :=
  let (parsedName, isPreviousAncestorArray) := st in
  let segment := Js.to_text (ParsedAncestor.name parsedAncestor) in
  ((if isPreviousAncestorArray
    then parsedName ++ ("[" ++ segment ++ "]")
    else parsedName ++ ((if Js.nonempty parsedName then "." else EmptyString) ++ segment))%string,
   ParsedAncestor.isArray parsedAncestor).

Definition build_name (parsedAncestors : list ParsedAncestor.t) : string :=
  fst (fold_left name_step parsedAncestors (EmptyString, false)).

(** The path after [if (path[path.length - 1] == null) ...]. *)
Definition fill_last (path : list Js.str) (formControlName : Js.str) : list Js.str :=
  if Js.nullish (nth (length path - 1) path Js.SUndefined)
  then Js.assign path (length path - 1) formControlName
  else path.

(** The getter [_parsedName]: its value, and the world it leaves (the
    path array of the control may have been written to). *)
Definition _parsedName (this : nat) (w : World) : Js.str * World :=
  let self := accessors w this in
  let control := controls w (_control self) in
  match NgControl._parent control, NgControl.path control with
  | Some parent, Some path0 =>
      match path0 with
      | [] => (formControlName self, w)
      | _ :: _ =>
          let path := fill_last path0 (formControlName self) in
          let w1 := with_control (_control self) (NgControl.with_path path control) w in
          let ancestors := ancestors_of (containers w parent) in
          (Js.SString (build_name (parse_ancestors path ancestors)), w1)
      end
  | _, _ => (formControlName self, w)
  end.

Inductive Error : Type :=
| NameError (formControlName parsedName : Js.str).

Definition quote : string := String "034"%char EmptyString.
Definition newline : string := String "010"%char EmptyString.

(** The text of the error built by [_throwNameError]. *)
Definition message (e : Error) : string :=
  match e with
  | NameError formControlName parsedName =>
      (newline
       ++ "      If you define both a name and a formControlName attribute on your radio button,"
       ++ newline
       ++ "      the name must match the form control path."
       ++ newline
       ++ "      Ex: <input type=" ++ quote ++ "radio" ++ quote
       ++ " formControlName=" ++ quote ++ Js.to_text formControlName ++ quote
       ++ " name=" ++ quote ++ Js.to_text parsedName ++ quote ++ ">"
       ++ newline ++ "    ")%string
  end.

(** How a method that may throw ends; a throw keeps the writes made
    before it. *)
Inductive Outcome : Type :=
| Returned (w : World)
| Thrown (e : Error) (w : World).

Definition world_of (o : Outcome) : World :=
  match o with
  | Returned w => w
  | Thrown _ w => w
  end.

Definition threw (o : Outcome) : bool :=
  match o with
  | Returned _ => false
  | Thrown _ _ => true
  end.

(** [_throwNameError(formControlName, parsedName)] *)
Definition _throwNameError (formControlName parsedName : Js.str) (w : World) : Outcome :=
  Thrown (NameError formControlName parsedName) w.

(** The second statement of [_checkName]. *)
Definition default_name (this : nat) (w : World) : World :=
  let self := accessors w this in
  if negb (Js.truthy (name self)) && Js.truthy (formControlName self)
  then let (parsedName, w1) := _parsedName this w in
       with_accessor this (set_name parsedName (accessors w1 this)) w1
  else w.

(** [_checkName()]; the getter is read once for the test and once more
    for the argument of [_throwNameError]. *)
Definition _checkName (this : nat) (w : World) : Outcome :=
  let self := accessors w this in
  if Js.truthy (name self) && Js.truthy (formControlName self)
  then let (parsedName, w1) := _parsedName this w in
       if negb (Js.str_eq (name self) parsedName)
       then let (parsedName', w2) := _parsedName this w1 in
            _throwNameError (name (accessors w1 this)) parsedName' w2
       else Returned (default_name this w1)
  else Returned (default_name this w).

(** The first statement of [ngOnInit]: [this._control] is what the injector
    holds for [NgControl]. *)
Definition resolve_control (this : nat) (w : World) : World :=
  let self := accessors w this in
  with_accessor this (set_control (_injector self) self) w.

(** [ngOnInit()] *)
Definition ngOnInit (this : nat) (w : World) : Outcome :=
  let w1 := resolve_control this w in
  match _checkName this w1 with
  | Returned w2 => Returned (add (_control (accessors w2 this)) this w2)
  | Thrown e w2 => Thrown e w2
  end.

(** [ngOnDestroy()] *)
Definition ngOnDestroy (this : nat) (w : World) : World :=
  remove this w.

(* ================================================================= *)
(** ** Vocabulary of the specification *)

(** The pairing's handle has a resolved control. *)
Definition resolved (w : World) (c : nat * nat) : bool :=
  match NgControl.control (controls w (fst c)) with
  | None => false
  | Some _ => true
  end.

(** Group identity as the specification words it: the same parent
    reference and the same declared name. *)
Definition same_group (w : World) (c : nat * nat) (accessor : nat) : bool :=
  Js.ref_eq (NgControl._parent (controls w (fst c)))
            (NgControl._parent (controls w (_control (accessors w accessor))))
  && Js.str_eq (name (accessors w (snd c))) (name (accessors w accessor)).

(** The pairings of the group of [accessor]; the group has as many
    members as this list is long. *)
Definition members (w : World) (accessor : nat) : list (nat * nat) :=
  filter (fun c => same_group w c accessor) (_accessors w).

(** [b] is a registered accessor of the group of [accessor]. *)
Definition in_group (w : World) (accessor b : nat) : bool :=
  existsb (fun c => Nat.eqb (snd c) b) (members w accessor).

(** The pairings for which the callback of [select] calls [fireUncheck]. *)
Definition notified (w : World) (accessor : nat) (c : nat * nat) : bool :=
  _isSameGroup w c accessor && negb (Nat.eqb (snd c) accessor).

(** What one call [c[1].fireUncheck(v)] adds to the trace. *)
Definition uncheck_events (w : World) (v : Js.value) (c : nat * nat) : list Event :=
  [FireUncheck (snd c) v;
   SetProperty (_elementRef (accessors w (snd c))) "checked"
               (Js.VBool (Js.strict_eq v (value (accessors w (snd c)))))].

(** The events of [w'] that [w] did not have yet. *)
Definition new_events (w w' : World) : list Event :=
  skipn (length (trace w)) (trace w').

(** The calls of [fireUncheck] in a run of events: who was called, and
    with what. *)
Fixpoint fireUncheck_calls (events : list Event) : list (nat * Js.value) :=
  match events with
  | [] => []
  | FireUncheck b v :: rest => (b, v) :: fireUncheck_calls rest
  | _ :: rest => fireUncheck_calls rest
  end.

(** The accessor shows as checked. *)
Definition checked (w : World) (r : nat) : bool :=
  match _state (accessors w r) with
  | Some true => true
  | _ => false
  end.

(** The registry holds a pairing for [accessor]. *)
Definition registered (accessor : nat) (l : list (nat * nat)) : bool :=
  existsb (fun c => Nat.eqb (snd c) accessor) l.

(** How many pairings the registry holds for [accessor]. *)
Definition occurrences (accessor : nat) (l : list (nat * nat)) : nat :=
  length (filter (fun c => Nat.eqb (snd c) accessor) l).

(** Sequences of calls on the registry. *)
Inductive RegistryOp : Type :=
| OpAdd (control accessor : nat)
| OpRemove (accessor : nat).

Definition apply_op (w : World) (op : RegistryOp) : World :=
  match op with
  | OpAdd control accessor => add control accessor w
  | OpRemove accessor => remove accessor w
  end.

Definition run (ops : list RegistryOp) (w : World) : World :=
  fold_left apply_op ops w.

(** The discipline of the accessor's life cycle: [add] is never called for
    an accessor that the registry still holds. *)
Fixpoint once_per_attach (ops : list RegistryOp) (w : World) : bool :=
  match ops with
  | [] => true
  | op :: rest =>
      match op with
      | OpAdd _ accessor => negb (registered accessor (_accessors w))
      | OpRemove _ => true
      end && once_per_attach rest (apply_op w op)
  end.

(** [typeof]-like comparison of two values, to say what a mismatch of
    types is. *)
Definition same_type (x y : Js.value) : bool :=
  match x, y with
  | Js.VUndefined, Js.VUndefined
  | Js.VNull, Js.VNull
  | Js.VBool _, Js.VBool _
  | Js.VNumber _, Js.VNumber _
  | Js.VString _, Js.VString _
  | Js.VObject _, Js.VObject _ => true
  | _, _ => false
  end.

(** The name as the specification words its construction: the first
    segment bare, each later one as [.segment], or as [[segment]] when
    the ancestor of the segment before it is array-like. *)
Fixpoint dotted_rest (previous_is_array : bool) (rest : list ParsedAncestor.t) : string :=
  match rest with
  | [] => EmptyString
  | p :: rest' =>
      ((if previous_is_array
        then "[" ++ Js.to_text (ParsedAncestor.name p) ++ "]"
        else "." ++ Js.to_text (ParsedAncestor.name p))
       ++ dotted_rest (ParsedAncestor.isArray p) rest')%string
  end.

Definition dotted_name (l : list ParsedAncestor.t) : string :=
  match l with
  | [] => EmptyString
  | p :: rest =>
      (Js.to_text (ParsedAncestor.name p) ++ dotted_rest (ParsedAncestor.isArray p) rest)%string
  end.

(** Whether the ancestor of the last segment of [l] is array-like. *)
Definition last_is_array (l : list ParsedAncestor.t) : bool :=
  ParsedAncestor.isArray (last l (ParsedAncestor.mk Js.SUndefined false)).

(** The segments of the path of the control of [this], paired with the
    ancestors, as [_parsedName] pairs them. *)
Definition parsed_ancestors (this : nat) (w : World) : list ParsedAncestor.t :=
  let self := accessors w this in
  let control := controls w (_control self) in
  match NgControl._parent control, NgControl.path control with
  | Some parent, Some path =>
      parse_ancestors (fill_last path (formControlName self))
                      (ancestors_of (containers w parent))
  | _, _ => []
  end.

(** The first segment of [l] is not the empty string. *)
Definition starts_nonempty (l : list ParsedAncestor.t) : bool :=
  match l with
  | [] => true
  | p :: _ => Js.nonempty (Js.to_text (ParsedAncestor.name p))
  end.

(** The piece that the segment [p] adds to the name [built] so far. *)
Definition piece (built : string) (previous_is_array : bool) (p : ParsedAncestor.t) : string :=
  if previous_is_array
  then ("[" ++ Js.to_text (ParsedAncestor.name p) ++ "]")%string
  else ((if Js.nonempty built then "." else EmptyString)
        ++ Js.to_text (ParsedAncestor.name p))%string.

(** The path array of the control of [this]. *)
Definition path_of (this : nat) (w : World) : option (list Js.str) :=
  NgControl.path (controls w (_control (accessors w this))).

(** The control of [this] has a parent and a path that is not empty. *)
Definition has_parent_and_path (this : nat) (w : World) : bool :=
  match NgControl._parent (controls w (_control (accessors w this))), path_of this w with
  | Some _, Some (_ :: _) => true
  | _, _ => false
  end.

(** [w] shows [select] what [w0] shows it: the controls, and of every
    accessor the name, the value, the control and the element. *)
Definition same_view (w0 w : World) : Prop :=
  controls w = controls w0
  /\ forall r,
       name (accessors w r) = name (accessors w0 r)
       /\ value (accessors w r) = value (accessors w0 r)
       /\ _control (accessors w r) = _control (accessors w0 r)
       /\ _elementRef (accessors w r) = _elementRef (accessors w0 r).

(* ================================================================= *)
(** ** Properties of the specification, as it words them *)

(** After [select(a)], every other member of the group of [a], and no one
    else, has received [fireUncheck(a.value)]. *)
Definition select_notifies_all_other_members (w : World) (a : nat) : Prop :=
  forall b, b <> a ->
    (in_group w a b = true <->
     In (b, value (accessors w a)) (fireUncheck_calls (new_events w (select a w)))).

(** At most one accessor of the group of [a] shows as checked. *)
Definition at_most_one_checked (w : World) (a : nat) : Prop :=
  forall b1 b2,
    in_group w a b1 = true -> in_group w a b2 = true ->
    checked w b1 = true -> checked w b2 = true -> b1 = b2.

(** After [remove(accessor)] the registry has no pairing for [accessor],
    and removing it again changes nothing. *)
Definition forgotten_after_remove (accessor : nat) (w : World) : Prop :=
  registered accessor (_accessors (remove accessor w)) = false
  /\ remove accessor (remove accessor w) = remove accessor w.

(** The computed name is the path in dots and brackets. *)
Definition name_is_dotted (this : nat) (w : World) : Prop :=
  fst (_parsedName this w) = Js.SString (dotted_name (parsed_ancestors this w)).

(** After the name is computed, the last segment of the path is
    [formControlName]. *)
Definition last_segment_is_formControlName (this : nat) (w : World) : Prop :=
  exists path,
    path_of this (snd (_parsedName this w)) = Some path
    /\ last path Js.SUndefined = formControlName (accessors w this).

(** At attach time both the explicit name and the computed name exist,
    and they differ. *)
Definition names_exist_and_differ (this : nat) (w : World) : bool :=
  let computed := fst (_parsedName this (resolve_control this w)) in
  Js.truthy (name (accessors w this)) && Js.truthy computed
  && negb (Js.str_eq (name (accessors w this)) computed).

(** The attach throws and the registry is as it was. *)
Definition attach_aborted (this : nat) (w : World) : Prop :=
  threw (ngOnInit this w) = true
  /\ _accessors (world_of (ngOnInit this w)) = _accessors w.

(** In the group of [a], every member other than [a] has a resolved
    control and a declared value that is not [===] to the value of [a]. *)
Definition others_resolved_and_differ (w : World) (a : nat) : bool :=
  forallb (fun c => implb (same_group w c a && negb (Nat.eqb (snd c) a))
                          (resolved w c
                           && negb (Js.strict_eq (value (accessors w a))
                                                 (value (accessors w (snd c))))))
          (_accessors w).

(* ================================================================= *)
(** ** Sample objects used by the examples *)

Definition blank : RadioControlValueAccessor :=
  mkAccessor None 0 None NoChange NoTouched Js.SUndefined Js.SUndefined Js.VUndefined 0 0.

(** A radio button bound to [control], before [ngOnInit]. *)
Definition radio (control : nat) (n fcn : Js.str) (v : Js.value) : RadioControlValueAccessor :=
  mkAccessor None 0 None NoChange NoTouched n fcn v (100 + control) control.

(** The same radio button once attached. *)
Definition attached_radio (control : nat) (n : Js.str) (v : Js.value) : RadioControlValueAccessor :=
  mkAccessor None control None NoChange NoTouched n Js.SUndefined v (100 + control) control.

Definition no_control : NgControl.t := NgControl.mk None None None.

Definition put_all {A : Type} (m : nat -> A) (l : list (nat * A)) : nat -> A :=
  fold_left (fun m' p => store m' (fst p) (snd p)) l m.

Definition world_with (accs : list (nat * RadioControlValueAccessor))
                      (ctls : list (nat * NgControl.t))
                      (conts : list (nat * ControlContainer.t))
                      (registry : list (nat * nat)) : World :=
  mkWorld (put_all (fun _ => blank) accs) (put_all (fun _ => no_control) ctls)
          (put_all (fun _ => ControlContainer.mk None) conts) registry [].

Definition empty_world : World := world_with [] [] [] [].

Definition root_group : AbstractControl := Root false.
Definition a_control : AbstractControl := Child false root_group.

(** Three radios of one group, with three values. *)
Definition colours_world : World :=
  world_with
    [(1, attached_radio 11 (Js.SString "colour") (Js.VString "red"));
     (2, attached_radio 12 (Js.SString "colour") (Js.VString "green"));
     (3, attached_radio 13 (Js.SString "colour") (Js.VString "blue"))]
    [(11, NgControl.mk (Some 7) None (Some a_control));
     (12, NgControl.mk (Some 7) None (Some a_control));
     (13, NgControl.mk (Some 7) None (Some a_control))]
    [(7, ControlContainer.mk (Some root_group))]
    [(11, 1); (12, 2); (13, 3)].

(** Three radios of one group that declare the same value. *)
Definition same_value_world : World :=
  world_with
    [(1, attached_radio 11 (Js.SString "colour") (Js.VString "red"));
     (2, attached_radio 12 (Js.SString "colour") (Js.VString "red"));
     (3, attached_radio 13 (Js.SString "colour") (Js.VString "red"))]
    [(11, NgControl.mk (Some 7) None (Some a_control));
     (12, NgControl.mk (Some 7) None (Some a_control));
     (13, NgControl.mk (Some 7) None (Some a_control))]
    [(7, ControlContainer.mk (Some root_group))]
    [(11, 1); (12, 2); (13, 3)].

(** Two radios of one group; the control of the second handle is not
    resolved. *)
Definition unresolved_world : World :=
  world_with
    [(1, attached_radio 11 (Js.SString "colour") (Js.VString "red"));
     (2, attached_radio 12 (Js.SString "colour") (Js.VString "green"))]
    [(11, NgControl.mk (Some 7) None (Some a_control));
     (12, NgControl.mk (Some 7) None None)]
    [(7, ControlContainer.mk (Some root_group))]
    [(11, 1); (12, 2)].

(** root -> array [addresses] -> element group -> control [street]. *)
Definition addresses_array : AbstractControl := Child true root_group.
Definition address_group : AbstractControl := Child false addresses_array.

Definition addresses_world : World :=
  world_with
    [(1, radio 11 Js.SUndefined (Js.SString "street") (Js.VString "a"))]
    [(11, NgControl.mk (Some 7)
            (Some [Js.SString "addresses"; Js.SString "0"; Js.SString "street"])
            (Some (Child false address_group)))]
    [(7, ControlContainer.mk (Some address_group))]
    [].

(** root -> group named by the empty string -> control [a]. *)
Definition empty_segment_world : World :=
  world_with
    [(1, radio 11 Js.SUndefined (Js.SString "a") (Js.VString "a"))]
    [(11, NgControl.mk (Some 7) (Some [Js.SString EmptyString; Js.SString "a"])
            (Some (Child false a_control)))]
    [(7, ControlContainer.mk (Some a_control))]
    [].

(** A control whose path ends in [b] under a radio whose
    [formControlName] is [c]. *)
Definition mismatch_world : World :=
  world_with
    [(1, radio 11 Js.SUndefined (Js.SString "c") (Js.VString "a"))]
    [(11, NgControl.mk (Some 7) (Some [Js.SString "a"; Js.SString "b"])
            (Some (Child false a_control)))]
    [(7, ControlContainer.mk (Some a_control))]
    [].

(** A control whose path ends in an unset segment. *)
Definition unset_segment_world : World :=
  world_with
    [(1, radio 11 Js.SUndefined (Js.SString "c") (Js.VString "a"))]
    [(11, NgControl.mk (Some 7) (Some [Js.SString "a"; Js.SNull])
            (Some (Child false a_control)))]
    [(7, ControlContainer.mk (Some a_control))]
    [].

(** A template-driven radio: a name, no [formControlName], inside a group
    [g]. *)
Definition template_driven_world : World :=
  world_with
    [(1, radio 11 (Js.SString "x") Js.SUndefined (Js.VString "a"))]
    [(11, NgControl.mk (Some 7) (Some [Js.SString "g"; Js.SString "x"])
            (Some (Child false a_control)))]
    [(7, ControlContainer.mk (Some a_control))]
    [(12, 2)].

(** A reactive radio named [x] whose [formControlName] is [y]. *)
Definition conflict_world : World :=
  world_with
    [(1, radio 11 (Js.SString "x") (Js.SString "y") (Js.VString "a"))]
    [(11, NgControl.mk (Some 7) (Some [Js.SNull]) (Some a_control))]
    [(7, ControlContainer.mk (Some root_group))]
    [(12, 2)].

(* ================================================================= *)
(** ** Further vocabulary *)

(** The condition under which [_checkName] throws: the name and
    [formControlName] are both truthy and the name is not [===] to the
    computed name. *)
Definition name_conflict (this : nat) (w : World) : bool :=
  let self := accessors w this in
  Js.truthy (name self) && Js.truthy (formControlName self)
  && negb (Js.str_eq (name self) (fst (_parsedName this (resolve_control this w)))).

(** The value is a number. *)
Definition is_number (v : Js.value) : bool :=
  match v with
  | Js.VNumber _ => true
  | _ => false
  end.

(** None of the ancestors is array-like. *)
Definition no_array (ancestors : list AbstractControl) : bool :=
  forallb (fun a => negb (AbstractControl.at_ a)) ancestors.

(** The first segment of a path is not the empty string. *)
Definition first_segment_nonempty (path : list Js.str) : bool :=
  match path with
  | [] => true
  | segment :: _ => Js.nonempty (Js.to_text segment)
  end.

(** The container that is the parent of the control of [this]. *)
Definition parent_of (this : nat) (w : World) : option nat :=
  NgControl._parent (controls w (_control (accessors w this))).

(* ================================================================= *)
(** ** Stores and worlds *)

Lemma store_same {A : Type} (m : nat -> A) r x : store m r x r = x.
Proof. unfold store. now rewrite Nat.eqb_refl. Qed.

Lemma store_other {A : Type} (m : nat -> A) r r' x : r' <> r -> store m r x r' = m r'.
Proof. intros H. unfold store. apply Nat.eqb_neq in H. now rewrite H. Qed.

Lemma with_registry_same (w : World) : with_registry (_accessors w) w = w.
Proof. now destruct w. Qed.

(* ================================================================= *)
(** ** The registry: add and remove *)

Section RegistryArray.

Variable accessor : nat.

Lemma splice_one {A : Type} (l : list A) (i : nat) :
  Js.splice l i 1 = firstn i l ++ skipn (S i) l.
Proof. unfold Js.splice. now rewrite Nat.add_1_r. Qed.

Lemma occurrences_splice (b : nat) (l : list (nat * nat)) (i : nat) (c : nat * nat) :
  nth_error l i = Some c ->
  occurrences b l
  = occurrences b (Js.splice l i 1) + (if Nat.eqb (snd c) b then 1 else 0).
Proof.
  intros H. rewrite splice_one.
  rewrite <- (firstn_skipn_middle _ _ H) at 1.
  unfold occurrences. rewrite !filter_app, !length_app. cbn [filter].
  destruct (Nat.eqb (snd c) b); cbn [length]; lia.
Qed.

Lemma registered_occurrences (l : list (nat * nat)) :
  registered accessor l = false <-> occurrences accessor l = 0.
Proof.
  unfold registered, occurrences.
  induction l as [|c l IH]; cbn; [tauto|].
  destruct (Nat.eqb (snd c) accessor); cbn; [split; [discriminate | lia] | exact IH].
Qed.

Lemma registered_at (l : list (nat * nat)) :
  registered accessor l = true ->
  exists j c, j < length l /\ nth_error l j = Some c /\ snd c = accessor.
Proof.
  intros H. apply existsb_exists in H as (c & Hin & Hc).
  apply In_nth_error in Hin as (j & Hj).
  exists j, c. repeat split; trivial.
  - apply nth_error_Some. congruence.
  - now apply Nat.eqb_eq.
Qed.

Lemma remove_scan_unregistered (l : list (nat * nat)) (n : nat) :
  registered accessor l = false -> remove_scan accessor l n = l.
Proof.
  intros H. induction n as [|i IH]; cbn; trivial.
  destruct (nth_error l i) as [c|] eqn:E; trivial.
  destruct (Nat.eqb (snd c) accessor) eqn:M; trivial.
  assert (registered accessor l = true) as H'.
  { apply existsb_exists. exists c. split; [eapply nth_error_In; eauto | trivial]. }
  congruence.
Qed.

(** The scan removes one pairing, the last one of [accessor] below [n]. *)
Lemma remove_scan_last (l : list (nat * nat)) (n : nat) :
  (exists j c, j < n /\ nth_error l j = Some c /\ snd c = accessor) ->
  exists i c,
    i < n /\ nth_error l i = Some c /\ snd c = accessor
    /\ (forall j c', i < j < n -> nth_error l j = Some c' -> snd c' <> accessor)
    /\ remove_scan accessor l n = Js.splice l i 1.
Proof.
  induction n as [|k IH]; intros (j & c & Hj & Hc & Hm); [lia|].
  cbn [remove_scan].
  destruct (nth_error l k) as [ck|] eqn:E.
  - destruct (Nat.eqb (snd ck) accessor) eqn:M.
    + exists k, ck. apply Nat.eqb_eq in M. repeat split; trivial; lia.
    + assert (j <> k) as Hjk.
      { intros ->. rewrite E in Hc. injection Hc as ->.
        apply Nat.eqb_neq in M. contradiction. }
      destruct IH as (i & ci & Hi & Hci & Hmi & Hlast & Heq).
      { exists j, c. repeat split; trivial. lia. }
      exists i, ci. repeat split; trivial; try lia.
      intros j' c' Hj' Hc'.
      destruct (Nat.eq_dec j' k) as [->|].
      * rewrite E in Hc'. injection Hc' as <-. now apply Nat.eqb_neq.
      * apply (Hlast j'); trivial. lia.
  - assert (j <> k) as Hjk by (intros ->; congruence).
    destruct IH as (i & ci & Hi & Hci & Hmi & Hlast & Heq).
    { exists j, c. repeat split; trivial. lia. }
    exists i, ci. repeat split; trivial; try lia.
    intros j' c' Hj' Hc'.
    destruct (Nat.eq_dec j' k) as [->|]; [congruence|].
    apply (Hlast j'); trivial. lia.
Qed.

Lemma remove_unregistered (w : World) :
  registered accessor (_accessors w) = false -> remove accessor w = w.
Proof.
  intros H. unfold remove. rewrite remove_scan_unregistered by trivial.
  apply with_registry_same.
Qed.

(** What [remove] does to a registry that holds the accessor. *)
Lemma remove_registered (w : World) :
  registered accessor (_accessors w) = true ->
  exists i c,
    nth_error (_accessors w) i = Some c /\ snd c = accessor
    /\ (forall j c', i < j -> nth_error (_accessors w) j = Some c' -> snd c' <> accessor)
    /\ _accessors (remove accessor w) = Js.splice (_accessors w) i 1.
Proof.
  intros H. apply registered_at in H.
  destruct (remove_scan_last _ _ H) as (i & c & Hi & Hc & Hm & Hlast & Heq).
  exists i, c. repeat split; trivial.
  intros j c' Hij Hj. apply (Hlast j); trivial.
  split; trivial. apply nth_error_Some. congruence.
Qed.

Lemma occurrences_remove (b : nat) (w : World) :
  occurrences b (_accessors (remove accessor w)) <= occurrences b (_accessors w).
Proof.
  destruct (registered accessor (_accessors w)) eqn:R.
  - destruct (remove_registered _ R) as (i & c & Hc & _ & _ & ->).
    rewrite (occurrences_splice b _ _ _ Hc). lia.
  - now rewrite remove_unregistered.
Qed.

Lemma occurrences_remove_self (w : World) :
  occurrences accessor (_accessors (remove accessor w))
  = pred (occurrences accessor (_accessors w)).
Proof.
  destruct (registered accessor (_accessors w)) eqn:R.
  - destruct (remove_registered _ R) as (i & c & Hc & Hm & _ & ->).
    rewrite (occurrences_splice accessor _ _ _ Hc).
    apply Nat.eqb_eq in Hm. rewrite Hm. lia.
  - rewrite remove_unregistered by trivial.
    apply registered_occurrences in R. now rewrite R.
Qed.

End RegistryArray.

Lemma occurrences_add (b control accessor : nat) (w : World) :
  occurrences b (_accessors (add control accessor w))
  = occurrences b (_accessors w) + (if Nat.eqb accessor b then 1 else 0).
Proof.
  unfold add, occurrences; cbn. rewrite filter_app, length_app. cbn.
  destruct (Nat.eqb accessor b); reflexivity.
Qed.

(** Under the life-cycle discipline no accessor is paired twice. *)
Lemma once_per_attach_invariant (ops : list RegistryOp) (w : World) :
  once_per_attach ops w = true ->
  (forall b, occurrences b (_accessors w) <= 1) ->
  forall b, occurrences b (_accessors (run ops w)) <= 1.
Proof.
  revert w. induction ops as [|op ops IH]; intros w Hd Hw;
    cbn [run fold_left once_per_attach] in *; trivial.
  apply andb_prop in Hd as [Hop Hrest].
  apply IH; trivial. intros b.
  destruct op as [control accessor|accessor]; cbn [apply_op].
  - rewrite occurrences_add. specialize (Hw b).
    destruct (Nat.eqb accessor b) eqn:E; [|lia].
    apply Nat.eqb_eq in E. subst b.
    apply negb_true_iff, registered_occurrences in Hop. lia.
  - etransitivity; [apply occurrences_remove | apply Hw].
Qed.

(** [remove] splits the array at the last pairing of the accessor. *)
Lemma remove_split (a : nat) (w : World) :
  registered a (_accessors w) = true ->
  exists l1 c l2,
    _accessors w = l1 ++ c :: l2 /\ snd c = a /\ registered a l2 = false
    /\ _accessors (remove a w) = l1 ++ l2.
Proof.
  intros H.
  destruct (remove_registered a w H) as (i & c & Hc & Hm & Hlast & Heq).
  exists (firstn i (_accessors w)), c, (skipn (S i) (_accessors w)).
  split; [symmetry; now apply firstn_skipn_middle|].
  split; [exact Hm|]. split; [|now rewrite Heq, splice_one].
  destruct (registered a (skipn (S i) (_accessors w))) eqn:R; trivial.
  apply existsb_exists in R as (c' & Hin & Hc').
  apply In_nth_error in Hin as (k & Hk). rewrite nth_error_skipn in Hk.
  apply Nat.eqb_eq in Hc'. exfalso.
  apply (Hlast (S i + k) c'); trivial. lia.
Qed.

(** [remove] keeps the pairings of the other accessors, in their order. *)
Lemma remove_others (a : nat) (w : World) :
  filter (fun c => negb (Nat.eqb (snd c) a)) (_accessors (remove a w))
  = filter (fun c => negb (Nat.eqb (snd c) a)) (_accessors w).
Proof.
  destruct (registered a (_accessors w)) eqn:R.
  - destruct (remove_split a w R) as (l1 & c & l2 & Hl & Hc & _ & Hr).
    rewrite Hr, Hl, !filter_app. cbn [filter]. now rewrite Hc, Nat.eqb_refl.
  - now rewrite remove_unregistered.
Qed.

(** C7, as amended.  Whatever the registry, [remove(accessor)] takes out
    one pairing of the accessor, its last one, if there is one: the array
    becomes the pairings before it followed by the pairings after it, so
    every other pairing stays in place and the accessor has one pairing
    less; when the accessor has no pairing the world is left as it was.
    So for every sequence of add and remove calls, from the empty
    registry, that never adds an accessor which the registry still holds:
    after [remove(accessor)] the registry has no pairing for that
    accessor, and a second [remove(accessor)] changes nothing. *)
Theorem remove_forgets_accessor_added_once
    (ops : list RegistryOp) (w0 : World) (accessor : nat) :
  _accessors w0 = [] ->
  once_per_attach ops w0 = true ->
  let w := run ops w0 in
  let others := fun c : nat * nat => negb (Nat.eqb (snd c) accessor) in
  forgotten_after_remove accessor w
  /\ filter others (_accessors (remove accessor w)) = filter others (_accessors w)
  /\ (forall w',
        registered accessor (_accessors w') = true ->
        exists l1 c l2,
          _accessors w' = l1 ++ c :: l2 /\ snd c = accessor
          /\ registered accessor l2 = false
          /\ _accessors (remove accessor w') = l1 ++ l2)
  /\ (forall w',
        occurrences accessor (_accessors (remove accessor w'))
        = pred (occurrences accessor (_accessors w'))
        /\ filter others (_accessors (remove accessor w')) = filter others (_accessors w')
        /\ accessors (remove accessor w') = accessors w'
        /\ controls (remove accessor w') = controls w'
        /\ trace (remove accessor w') = trace w')
  /\ (forall w', registered accessor (_accessors w') = false -> remove accessor w' = w').
Proof.
  intros Hempty Hd w others.
  assert (registered accessor (_accessors (remove accessor w)) = false) as Hgone.
  { apply registered_occurrences. rewrite occurrences_remove_self.
    assert (occurrences accessor (_accessors w) <= 1) as Hone.
    { apply once_per_attach_invariant; trivial.
      intros b. rewrite Hempty. cbn. lia. }
    lia. }
  split; [|split; [|split; [|split]]].
  - split; [exact Hgone | now apply remove_unregistered].
  - apply remove_others.
  - intros w'. apply remove_split.
  - intros w'. split; [apply occurrences_remove_self|].
    split; [apply remove_others|]. now repeat split.
  - intros w'. apply remove_unregistered.
Qed.

Lemma remove_forgets_accessor_added_once_witness :
  _accessors empty_world = []
  /\ once_per_attach [OpAdd 11 1; OpAdd 12 2; OpRemove 1; OpAdd 11 1; OpAdd 13 3] empty_world = true
  /\ forgotten_after_remove 1
       (run [OpAdd 11 1; OpAdd 12 2; OpRemove 1; OpAdd 11 1; OpAdd 13 3] empty_world)
  /\ filter (fun c : nat * nat => negb (Nat.eqb (snd c) 1))
            (_accessors (remove 1 (run [OpAdd 11 1; OpAdd 12 2; OpRemove 1; OpAdd 11 1; OpAdd 13 3]
                                       empty_world)))
     = [(12, 2); (13, 3)].
Proof.
  split; [reflexivity|]. split; [reflexivity|].
  pose proof (remove_forgets_accessor_added_once
                [OpAdd 11 1; OpAdd 12 2; OpRemove 1; OpAdd 11 1; OpAdd 13 3] empty_world 1
                eq_refl eq_refl) as T.
  exact (conj (proj1 T) (proj1 (proj2 T))).
Defined.

(** [add] does not look for the accessor: added twice and removed once, it
    is still in the registry. *)
Lemma remove_leaves_second_pairing :
  ~ forgotten_after_remove 1 (run [OpAdd 11 1; OpAdd 11 1] empty_world).
Proof.
  intros [H _]. vm_compute in H. discriminate H.
Qed.

Example remove_takes_the_last_pairing :
  _accessors (run [OpAdd 11 1; OpAdd 12 2; OpAdd 13 1; OpRemove 1] empty_world)
  = [(11, 1); (12, 2)].
Proof. reflexivity. Qed.

(* ================================================================= *)
(** ** The registry: select *)

Lemma same_view_refl (w : World) : same_view w w.
Proof. split; [reflexivity | intros r; repeat split]. Qed.

Lemma isSameGroup_resolved_same_group (w : World) (c : nat * nat) (a : nat) :
  _isSameGroup w c a = resolved w c && same_group w c a.
Proof.
  unfold _isSameGroup, resolved, same_group.
  now destruct (NgControl.control (controls w (fst c))).
Qed.

Lemma notified_view (w0 w : World) (a : nat) (c : nat * nat) :
  same_view w0 w -> notified w a c = notified w0 a c.
Proof.
  intros [Hc Ha]. unfold notified, _isSameGroup. rewrite Hc.
  destruct (Ha (snd c)) as (Hn & _). destruct (Ha a) as (Hna & _ & Hca & _).
  now rewrite Hn, Hna, Hca.
Qed.

Lemma set_state_twice (s s' : option bool) (x : RadioControlValueAccessor) :
  set_state s (set_state s' x) = set_state s x.
Proof. reflexivity. Qed.

Lemma fireUncheck_accessors (b : nat) (v : Js.value) (w : World) (r : nat) :
  accessors (fireUncheck b v w) r
  = if Nat.eqb r b
    then set_state (Some (Js.strict_eq v (value (accessors w b)))) (accessors w b)
    else accessors w r.
Proof. reflexivity. Qed.

Lemma fireUncheck_trace (c : nat * nat) (v : Js.value) (w : World) :
  trace (fireUncheck (snd c) v w) = trace w ++ uncheck_events w v c.
Proof. unfold fireUncheck, writeValue, emit; cbn. now rewrite <- app_assoc. Qed.

Lemma fireUncheck_view (w0 w : World) (b : nat) (v : Js.value) :
  same_view w0 w -> same_view w0 (fireUncheck b v w).
Proof.
  intros [Hc Ha]. split; [exact Hc|].
  intros r. rewrite fireUncheck_accessors.
  destruct (Nat.eqb r b) eqn:E; [|apply Ha].
  apply Nat.eqb_eq in E. subst r. cbn. apply Ha.
Qed.

Lemma select_visit_notified (a : nat) (w : World) (c : nat * nat) :
  select_visit a w c
  = if notified w a c then fireUncheck (snd c) (value (accessors w a)) w else w.
Proof. reflexivity. Qed.

(** The loop of [select], from any world that shows what [w0] shows: it
    calls [fireUncheck] for the pairings that pass the test in [w0], in
    the order of the array, and writes the state of their accessors. *)
Lemma select_loop (a : nat) (w0 : World) (l : list (nat * nat)) :
  forall w, same_view w0 w ->
    let v := value (accessors w0 a) in
    let w' := fold_left (select_visit a) l w in
    same_view w0 w'
    /\ containers w' = containers w
    /\ _accessors w' = _accessors w
    /\ trace w' = trace w ++ flat_map (uncheck_events w0 v) (filter (notified w0 a) l)
    /\ forall r,
         accessors w' r
         = if existsb (fun c => notified w0 a c && Nat.eqb (snd c) r) l
           then set_state (Some (Js.strict_eq v (value (accessors w0 r)))) (accessors w r)
           else accessors w r.
Proof.
  induction l as [|c l IH]; intros w Hv; cbn zeta.
  - cbn. rewrite app_nil_r. repeat split; trivial; apply Hv.
  - cbn [fold_left filter flat_map existsb].
    rewrite select_visit_notified, (notified_view w0 w a c Hv).
    assert (value (accessors w a) = value (accessors w0 a)) as Hva by apply Hv.
    rewrite Hva.
    destruct (notified w0 a c) eqn:N; cbn [andb orb].
    + set (v := value (accessors w0 a)).
      specialize (IH (fireUncheck (snd c) v w) (fireUncheck_view w0 w (snd c) v Hv)).
      cbn zeta in IH. fold v in IH.
      destruct IH as (Hview & Hcont & Hreg & Htrace & Hacc).
      repeat split; try apply Hview; trivial.
      * rewrite Htrace, fireUncheck_trace. cbn [flat_map].
        rewrite <- !app_assoc. do 2 f_equal.
        unfold uncheck_events.
        assert (_elementRef (accessors w (snd c)) = _elementRef (accessors w0 (snd c))) as -> by apply Hv.
        assert (value (accessors w (snd c)) = value (accessors w0 (snd c))) as -> by apply Hv.
        reflexivity.
      * intros r. rewrite Hacc, fireUncheck_accessors, (Nat.eqb_sym r (snd c)).
        assert (value (accessors w (snd c)) = value (accessors w0 (snd c))) as -> by apply Hv.
        destruct (Nat.eqb (snd c) r) eqn:E; cbn [orb].
        -- apply Nat.eqb_eq in E. subst r.
           destruct (existsb _ l); [apply set_state_twice | reflexivity].
        -- reflexivity.
    + apply IH, Hv.
Qed.

(** What [select(a)] leaves: the trace, the states, and nothing else. *)
Lemma select_effect (a : nat) (w : World) :
  let v := value (accessors w a) in
  let w' := select a w in
  controls w' = controls w
  /\ containers w' = containers w
  /\ _accessors w' = _accessors w
  /\ trace w' = trace w ++ flat_map (uncheck_events w v) (filter (notified w a) (_accessors w))
  /\ forall r,
       accessors w' r
       = if existsb (fun c => notified w a c && Nat.eqb (snd c) r) (_accessors w)
         then set_state (Some (Js.strict_eq v (value (accessors w r)))) (accessors w r)
         else accessors w r.
Proof.
  cbn zeta. unfold select.
  destruct (select_loop a w (_accessors w) w (same_view_refl w))
    as (Hview & Hcont & Hreg & Htrace & Hacc).
  repeat split; trivial. apply Hview.
Qed.

Lemma new_events_app (w w' : World) (events : list Event) :
  trace w' = trace w ++ events -> new_events w w' = events.
Proof.
  unfold new_events. intros ->.
  induction (trace w) as [|e t IH]; cbn; trivial.
Qed.

Lemma fireUncheck_calls_of_uncheck_events (w : World) (v : Js.value) (l : list (nat * nat)) :
  fireUncheck_calls (flat_map (uncheck_events w v) l) = map (fun c => (snd c, v)) l.
Proof. induction l as [|c l IH]; cbn; [|rewrite IH]; reflexivity. Qed.

Lemma notified_among_members (w : World) (a : nat) (l : list (nat * nat)) :
  filter (notified w a) l
  = filter (fun c => resolved w c && negb (Nat.eqb (snd c) a))
           (filter (fun c => same_group w c a) l).
Proof.
  induction l as [|c l IH]; cbn [filter]; trivial.
  unfold notified at 1. rewrite isSameGroup_resolved_same_group.
  destruct (same_group w c a); cbn [filter].
  - rewrite andb_true_r.
    destruct (resolved w c && negb (Nat.eqb (snd c) a)); now rewrite IH.
  - now rewrite andb_false_r.
Qed.

Lemma filter_complement {A : Type} (f : A -> bool) (l : list A) :
  length (filter f l) + length (filter (fun x => negb (f x)) l) = length l.
Proof.
  induction l as [|x l IH]; cbn; trivial.
  destruct (f x); cbn; lia.
Qed.

Lemma select_calls (w : World) (a : nat) :
  fireUncheck_calls (new_events w (select a w))
  = map (fun c => (snd c, value (accessors w a))) (filter (notified w a) (_accessors w)).
Proof.
  destruct (select_effect a w) as (_ & _ & _ & Htrace & _).
  rewrite (new_events_app _ _ _ Htrace).
  apply fireUncheck_calls_of_uncheck_events.
Qed.

Lemma select_nobody (a : nat) (l : list (nat * nat)) :
  forall w, same_view w w ->
    filter (notified w a) l = [] -> fold_left (select_visit a) l w = w.
Proof.
  induction l as [|c l IH]; intros w Hv H; cbn in *; trivial.
  rewrite select_visit_notified.
  destruct (notified w a c); [discriminate|]. now apply IH.
Qed.

Lemma select_calls_count (w : World) (a : nat) :
  length (fireUncheck_calls (new_events w (select a w)))
  + length (filter (fun c => negb (resolved w c && negb (Nat.eqb (snd c) a)))
                   (members w a))
  = length (members w a).
Proof.
  rewrite select_calls, length_map. unfold members.
  rewrite notified_among_members. apply filter_complement.
Qed.

(** C1, as amended.  [select(a)] calls [fireUncheck(a.value)] on the
    members of the group of [a] (same parent reference, same declared
    name) whose pairing is not one of [a] and whose handle has a resolved
    control, once for each such pairing in the order of the registry, and
    on nobody else; never on [a] itself.  So when every handle of the
    group is resolved and [a] is paired once, these are the other N-1
    members.  With no such member, [select] leaves the world as it was. *)
Theorem select_notifies_other_resolved_members (w : World) (a : nat) :
  let v := value (accessors w a) in
  let others :=
    filter (fun c => resolved w c && negb (Nat.eqb (snd c) a)) (members w a) in
  let calls := fireUncheck_calls (new_events w (select a w)) in
  trace (select a w) = trace w ++ flat_map (uncheck_events w v) others
  /\ calls = map (fun c => (snd c, v)) others
  /\ ~ In a (map fst calls)
  /\ length calls
     + length (filter (fun c => negb (resolved w c && negb (Nat.eqb (snd c) a)))
                      (members w a))
     = length (members w a)
  /\ (others = [] -> select a w = w).
Proof.
  cbv zeta.
  assert (fireUncheck_calls (new_events w (select a w))
          = map (fun c => (snd c, value (accessors w a)))
                (filter (fun c => resolved w c && negb (Nat.eqb (snd c) a)) (members w a)))
    as Hcalls.
  { rewrite select_calls. unfold members. now rewrite notified_among_members. }
  rewrite Hcalls. repeat split.
  - destruct (select_effect a w) as (_ & _ & _ & Htrace & _).
    rewrite Htrace. unfold members. now rewrite notified_among_members.
  - rewrite map_map. cbn. intros Hin.
    apply in_map_iff in Hin as (c & Hc & Hin).
    apply filter_In in Hin as (_ & Hf).
    apply andb_prop in Hf as (_ & Hf).
    rewrite Hc, Nat.eqb_refl in Hf. discriminate.
  - rewrite <- Hcalls. apply select_calls_count.
  - intros Hnone. unfold select. apply select_nobody; [apply same_view_refl|].
    rewrite notified_among_members. exact Hnone.
Qed.

(** When every handle of the group is resolved and [a] has one pairing in
    it, the calls are as many as the other members: N - 1. *)
Corollary select_calls_all_but_one (w : World) (a : nat) :
  forallb (resolved w) (members w a) = true ->
  length (filter (fun c => Nat.eqb (snd c) a) (members w a)) = 1 ->
  length (fireUncheck_calls (new_events w (select a w))) = length (members w a) - 1.
Proof.
  intros Hres Hone.
  pose proof (select_calls_count w a) as Hcount.
  assert (filter (fun c => negb (resolved w c && negb (Nat.eqb (snd c) a))) (members w a)
          = filter (fun c => Nat.eqb (snd c) a) (members w a)) as Heq.
  { apply filter_ext_in. intros c Hc.
    rewrite forallb_forall in Hres. rewrite (Hres c Hc). cbn. apply negb_involutive. }
  rewrite Heq, Hone in Hcount. lia.
Qed.

(** The second radio of [unresolved_world] is in the group of the first
    and is not called. *)
Lemma select_skips_unresolved_member :
  ~ select_notifies_all_other_members unresolved_world 1.
Proof.
  intros H. destruct (H 2) as [Hin _]; [discriminate|].
  specialize (Hin eq_refl). vm_compute in Hin. exact Hin.
Qed.

Example select_in_colours_world :
  trace (select 1 colours_world)
  = [FireUncheck 2 (Js.VString "red"); SetProperty 112 "checked" (Js.VBool false);
     FireUncheck 3 (Js.VString "red"); SetProperty 113 "checked" (Js.VBool false)].
Proof. reflexivity. Qed.

Lemma notified_unresolved (w : World) (a : nat) (c : nat * nat) :
  resolved w c = false -> notified w a c = false.
Proof.
  intros H. unfold notified. rewrite isSameGroup_resolved_same_group, H. reflexivity.
Qed.

(** C10.  A pairing of the registry whose handle has no resolved control
    is not notified by [select(a)], whatever its parent and name: the
    callback of [select] leaves the world as it finds it when it visits
    the pairing, the calls of [fireUncheck] that [select] makes are those
    for the notified pairings, all of them resolved, and an accessor that
    has only such pairings is not called and keeps its state. *)
Theorem select_never_notifies_unresolved_pairing (w : World) (a : nat) (c : nat * nat) :
  In c (_accessors w) ->
  resolved w c = false ->
  ~ In c (filter (notified w a) (_accessors w))
  /\ (forall w', same_view w w' -> select_visit a w' c = w')
  /\ fireUncheck_calls (new_events w (select a w))
     = map (fun c' => (snd c', value (accessors w a)))
           (filter (notified w a) (filter (resolved w) (_accessors w)))
  /\ ((forall c', In c' (_accessors w) -> snd c' = snd c -> resolved w c' = false) ->
      accessors (select a w) (snd c) = accessors w (snd c)
      /\ ~ In (snd c) (map fst (fireUncheck_calls (new_events w (select a w))))).
Proof.
  intros Hin Hun.
  pose proof (notified_unresolved w a c Hun) as Hnot.
  split; [|split; [|split]].
  - intros Hf. apply filter_In in Hf as (_ & Hf). congruence.
  - intros w' Hv. rewrite select_visit_notified, (notified_view w w' a c Hv), Hnot.
    reflexivity.
  - rewrite select_calls. f_equal.
    clear Hin. induction (_accessors w) as [|c' l IH]; cbn [filter]; trivial.
    destruct (resolved w c') eqn:R; cbn [filter].
    + destruct (notified w a c'); now rewrite IH.
    + now rewrite (notified_unresolved w a c' R).
  - intros Hall. split.
    + destruct (select_effect a w) as (_ & _ & _ & _ & Hacc).
      rewrite Hacc.
      destruct (existsb _ (_accessors w)) eqn:E; trivial.
      apply existsb_exists in E as (c' & Hc' & Hn).
      apply andb_prop in Hn as (Hn & Hs). apply Nat.eqb_eq in Hs.
      rewrite (notified_unresolved w a c' (Hall c' Hc' Hs)) in Hn. discriminate.
    + rewrite select_calls, map_map. cbn. intros Hm.
      apply in_map_iff in Hm as (c' & Hs & Hf).
      apply filter_In in Hf as (Hc' & Hn).
      rewrite (notified_unresolved w a c' (Hall c' Hc' Hs)) in Hn. discriminate.
Qed.

Lemma select_never_notifies_unresolved_pairing_witness :
  In (12, 2) (_accessors unresolved_world)
  /\ resolved unresolved_world (12, 2) = false
  /\ same_group unresolved_world (12, 2) 1 = true
  /\ ~ In (12, 2) (filter (notified unresolved_world 1) (_accessors unresolved_world)).
Proof.
  split; [right; left; reflexivity|]. split; [reflexivity|]. split; [reflexivity|].
  exact (proj1 (select_never_notifies_unresolved_pairing unresolved_world 1 (12, 2)
                  (or_intror (or_introl eq_refl)) eq_refl)).
Defined.

Lemma same_group_view (w0 w : World) (a : nat) (c : nat * nat) :
  same_view w0 w -> same_group w c a = same_group w0 c a.
Proof.
  intros [Hc Ha]. unfold same_group. rewrite Hc.
  destruct (Ha (snd c)) as (Hn & _). destruct (Ha a) as (Hna & _ & Hca & _).
  now rewrite Hn, Hna, Hca.
Qed.

Lemma select_view (a : nat) (w : World) : same_view w (select a w).
Proof. apply (select_loop a w (_accessors w) w (same_view_refl w)). Qed.

Lemma in_group_select (a b : nat) (w : World) :
  in_group (select a w) a b = in_group w a b.
Proof.
  unfold in_group, members.
  destruct (select_effect a w) as (_ & _ & -> & _).
  f_equal. apply filter_ext. intros c. apply same_group_view, select_view.
Qed.

(** After [select(a)] a notified accessor is checked exactly when its
    declared value is [===] to the value of [a]. *)
Lemma select_rechecks_by_equality (w : World) (a : nat) (c : nat * nat) :
  In c (_accessors w) -> notified w a c = true ->
  _state (accessors (select a w) (snd c))
  = Some (Js.strict_eq (value (accessors w a)) (value (accessors w (snd c)))).
Proof.
  intros Hin Hn.
  destruct (select_effect a w) as (_ & _ & _ & _ & Hacc). rewrite Hacc.
  assert (existsb (fun c' => notified w a c' && Nat.eqb (snd c') (snd c)) (_accessors w) = true) as ->.
  { apply existsb_exists. exists c. now rewrite Hn, Nat.eqb_refl. }
  reflexivity.
Qed.

Lemma select_unchecks_others (w : World) (a b : nat) :
  others_resolved_and_differ w a = true ->
  in_group w a b = true -> b <> a -> checked (select a w) b = false.
Proof.
  intros Hall Hb Hba.
  apply existsb_exists in Hb as (c & Hc & Hs). apply Nat.eqb_eq in Hs. subst b.
  apply filter_In in Hc as (Hc & Hg).
  unfold others_resolved_and_differ in Hall. rewrite forallb_forall in Hall.
  specialize (Hall c Hc). rewrite Hg in Hall.
  apply Nat.eqb_neq in Hba. rewrite Hba in Hall. cbn in Hall.
  apply andb_prop in Hall as (Hr & Hd). apply negb_true_iff in Hd.
  unfold checked. rewrite (select_rechecks_by_equality w a c Hc).
  - now rewrite Hd.
  - unfold notified. now rewrite isSameGroup_resolved_same_group, Hr, Hg, Hba.
Qed.

(** C3, as amended.  [fireUncheck] compares: after [select(a)] a notified
    member is checked exactly when its declared value is [===] to the
    value of [a].  So for every group of registered accessors in which
    the members other than [a] have a resolved control and a declared
    value that is not [===] to the value of [a], immediately after
    [select(a)] no member other than [a] is checked, hence at most one
    accessor of the group is. *)
Theorem select_leaves_at_most_one_checked (w : World) (a : nat) :
  others_resolved_and_differ w a = true ->
  (forall b, in_group (select a w) a b = true -> b <> a -> checked (select a w) b = false)
  /\ at_most_one_checked (select a w) a.
Proof.
  intros Hall.
  assert (forall b, in_group (select a w) a b = true -> b <> a ->
                    checked (select a w) b = false) as Hothers.
  { intros b Hb. rewrite in_group_select in Hb. now apply select_unchecks_others. }
  split; [exact Hothers|].
  intros b1 b2 H1 H2 C1 C2.
  destruct (Nat.eq_dec b1 a) as [->|N1]; destruct (Nat.eq_dec b2 a) as [->|N2]; trivial.
  - rewrite (Hothers b2 H2 N2) in C2. discriminate.
  - rewrite (Hothers b1 H1 N1) in C1. discriminate.
  - rewrite (Hothers b1 H1 N1) in C1. discriminate.
Qed.

Lemma select_leaves_at_most_one_checked_witness :
  others_resolved_and_differ colours_world 1 = true
  /\ at_most_one_checked (select 1 colours_world) 1.
Proof.
  split; [reflexivity|].
  exact (proj2 (select_leaves_at_most_one_checked colours_world 1 eq_refl)).
Defined.

(** Three radios with one value: after [select] of the first, the second
    and the third are both checked. *)
Lemma select_checks_equal_valued_members :
  ~ at_most_one_checked (select 1 same_value_world) 1.
Proof.
  intros H. specialize (H 2 3 eq_refl eq_refl eq_refl eq_refl). discriminate H.
Qed.

(* ================================================================= *)
(** ** The change hook *)

Lemma registerOnChange_view (w : World) (a fn : nat) (v : Js.value) :
  same_view w (call fn v (registerOnChange a fn w)).
Proof.
  split; [reflexivity|]. intros r. cbn. unfold store.
  destruct (Nat.eqb r a) eqn:E; [|repeat split].
  apply Nat.eqb_eq in E. subst r. repeat split.
Qed.

(** C6.  After [registerOnChange(fn)], [fn] is stored and the [onChange]
    hook first calls [fn] with the declared value of the accessor and
    then runs [select] on the accessor: when [fn] is called no state has
    been written yet, and in the trace the callback comes before every
    [fireUncheck] of a sibling. *)
Theorem onChange_calls_fn_before_select (w : World) (a fn : nat) :
  let w0 := registerOnChange a fn w in
  let v := value (accessors w a) in
  _fn (accessors w0 a) = Some fn
  /\ host_change a w0 = select a (call fn v w0)
  /\ (forall r, _state (accessors (call fn v w0) r) = _state (accessors w r))
  /\ trace (host_change a w0)
     = trace w ++ Callback fn v
                  :: flat_map (uncheck_events w v) (filter (notified w a) (_accessors w)).
Proof.
  cbv zeta.
  assert (accessors (registerOnChange a fn w) a
          = set_onChange fn (OnChange fn a) (accessors w a)) as Hself.
  { unfold registerOnChange, with_accessor; cbn. apply store_same. }
  assert (host_change a (registerOnChange a fn w)
          = select a (call fn (value (accessors w a)) (registerOnChange a fn w))) as Hhook.
  { unfold host_change. rewrite Hself. cbn [onChange set_onChange].
    rewrite Hself. reflexivity. }
  repeat split.
  - now rewrite Hself.
  - exact Hhook.
  - intros r. cbn. unfold store.
    destruct (Nat.eqb r a) eqn:E; trivial.
    apply Nat.eqb_eq in E. now subst r.
  - rewrite Hhook. unfold select.
    set (v := value (accessors w a)).
    destruct (select_loop a w (_accessors w) (call fn v (registerOnChange a fn w))
                (registerOnChange_view w a fn v)) as (_ & _ & _ & Htrace & _).
    change (_accessors (call fn v (registerOnChange a fn w))) with (_accessors w).
    rewrite Htrace. cbn. now rewrite <- app_assoc.
Qed.

Example onChange_in_colours_world :
  trace (host_change 1 (registerOnChange 1 9 colours_world))
  = [Callback 9 (Js.VString "red");
     FireUncheck 2 (Js.VString "red"); SetProperty 112 "checked" (Js.VBool false);
     FireUncheck 3 (Js.VString "red"); SetProperty 113 "checked" (Js.VBool false)].
Proof. reflexivity. Qed.

Example onChange_before_registration :
  host_change 1 colours_world = colours_world.
Proof. reflexivity. Qed.

(* ================================================================= *)
(** ** writeValue *)

(** C5.  For every input [v], [writeValue(v)] sets the checked state of
    the accessor to the result of [v === this.value], hands that same
    boolean to the renderer as the [checked] property of the bound
    element, and writes nothing else; it is a total function, so it never
    fails, and a value of another type than the declared one gives
    [false]. *)
Theorem writeValue_sets_checked_to_strict_equality (w : World) (this : nat) (v : Js.value) :
  let declared := value (accessors w this) in
  let w' := writeValue this v w in
  _state (accessors w' this) = Some (Js.strict_eq v declared)
  /\ checked w' this = Js.strict_eq v declared
  /\ trace w' = trace w ++ [SetProperty (_elementRef (accessors w this)) "checked"
                                         (Js.VBool (Js.strict_eq v declared))]
  /\ value (accessors w' this) = declared
  /\ _accessors w' = _accessors w
  /\ implb (negb (same_type v declared)) (negb (Js.strict_eq v declared)) = true.
Proof.
  cbv zeta. unfold checked, writeValue, emit, with_accessor; cbn.
  rewrite store_same; cbn.
  repeat split.
  - now destruct (Js.strict_eq v (value (accessors w this))).
  - destruct v, (value (accessors w this)); reflexivity.
Qed.

Example writeValue_red_red :
  checked (writeValue 1 (Js.VString "red") colours_world) 1 = true.
Proof. reflexivity. Qed.

Example writeValue_blue_red :
  checked (writeValue 1 (Js.VString "blue") colours_world) 1 = false.
Proof. reflexivity. Qed.

Example writeValue_number_one_string_one :
  checked (writeValue 1 (Js.VNumber 1%float)
             (with_accessor 1 (attached_radio 11 (Js.SString "n") (Js.VString "1"))
                            empty_world)) 1 = false.
Proof. reflexivity. Qed.

Example writeValue_nan_nan :
  checked (writeValue 1 (Js.VNumber nan)
             (with_accessor 1 (attached_radio 11 (Js.SString "n") (Js.VNumber nan))
                            empty_world)) 1 = false.
Proof. reflexivity. Qed.

(* ================================================================= *)
(** ** The computed name *)

Lemma string_append_assoc (a b c : string) :
  ((a ++ b) ++ c = a ++ (b ++ c))%string.
Proof. induction a as [|x a IH]; cbn; [|rewrite IH]; reflexivity. Qed.

Lemma nonempty_append (a b : string) :
  Js.nonempty a = true -> Js.nonempty (a ++ b)%string = true.
Proof. now destruct a. Qed.

Section NameLoop.

Let d : ParsedAncestor.t := ParsedAncestor.mk Js.SUndefined false.

Lemma name_loop_flag (l : list ParsedAncestor.t) :
  forall st, snd (fold_left name_step l st)
             = match l with
               | [] => snd st
               | _ :: _ => ParsedAncestor.isArray (last l d)
               end.
Proof.
  induction l as [|p l IH]; intros st; trivial.
  cbn [fold_left]. rewrite IH.
  destruct l; [now destruct st | reflexivity].
Qed.

(** One more segment adds its piece at the right end of the name. *)
Lemma build_name_snoc (l : list ParsedAncestor.t) (p : ParsedAncestor.t) :
  build_name (l ++ [p])
  = (build_name l ++ piece (build_name l) (last_is_array l) p)%string.
Proof.
  unfold build_name. rewrite fold_left_app. cbn [fold_left].
  pose proof (name_loop_flag l (EmptyString, false)) as Hflag.
  destruct (fold_left name_step l (EmptyString, false)) as [built flag].
  cbn [fst snd name_step] in *.
  assert (flag = last_is_array l) as ->.
  { rewrite Hflag. now destruct l. }
  unfold piece. now destruct (last_is_array l).
Qed.

(** Once the name is not empty, every later segment comes with its dot
    or in its brackets. *)
Lemma name_loop_dotted (rest : list ParsedAncestor.t) :
  forall built flag,
    Js.nonempty built = true ->
    fst (fold_left name_step rest (built, flag))
    = (built ++ dotted_rest flag rest)%string.
Proof.
  induction rest as [|p rest IH]; intros built flag Hne; cbn [fold_left dotted_rest fst].
  - clear Hne. induction built as [|x built IHb]; cbn; [|rewrite <- IHb]; reflexivity.
  - cbn [name_step]. rewrite Hne.
    destruct flag; rewrite IH by now apply nonempty_append.
    + now rewrite string_append_assoc.
    + now rewrite string_append_assoc.
Qed.

Lemma build_name_dotted (l : list ParsedAncestor.t) :
  starts_nonempty l = true -> build_name l = dotted_name l.
Proof.
  destruct l as [|p rest]; trivial. cbn [starts_nonempty]. intros Hne.
  unfold build_name. cbn [fold_left name_step dotted_name Js.nonempty].
  cbn [append]. now apply name_loop_dotted.
Qed.

End NameLoop.

Section LastSegment.

Variable fcn : Js.str.

Lemma assign_last (q : list Js.str) (x : Js.str) :
  Js.assign (q ++ [x]) (length q) fcn = q ++ [fcn].
Proof. induction q as [|h q IH]; cbn; [|rewrite IH]; reflexivity. Qed.

Lemma fill_last_snoc (q : list Js.str) (x : Js.str) :
  fill_last (q ++ [x]) fcn = q ++ [if Js.nullish x then fcn else x].
Proof.
  unfold fill_last. rewrite length_app, Nat.add_sub. cbn [length].
  rewrite nth_middle.
  destruct (Js.nullish x); [apply assign_last | reflexivity].
Qed.

Lemma fill_last_twice (path : list Js.str) :
  fill_last (fill_last path fcn) fcn = fill_last path fcn.
Proof.
  destruct path as [|h t]; trivial.
  destruct (exists_last (l := h :: t)) as (q & x & ->); [discriminate|].
  rewrite !fill_last_snoc.
  destruct (Js.nullish x) eqn:E; [|now rewrite E].
  now destruct (Js.nullish fcn).
Qed.

Lemma fill_last_nonempty (path : list Js.str) :
  path <> [] -> fill_last path fcn <> [].
Proof.
  intros H. destruct (exists_last H) as (q & x & ->).
  rewrite fill_last_snoc. now destruct q.
Qed.

End LastSegment.

(** The getter, for a control with a parent and a path that is not
    empty. *)
Lemma parsedName_with_path (this : nat) (w : World) :
  has_parent_and_path this w = true ->
  exists path0,
    path_of this w = Some path0 /\ path0 <> []
    /\ fst (_parsedName this w) = Js.SString (build_name (parsed_ancestors this w))
    /\ snd (_parsedName this w)
       = with_control (_control (accessors w this))
           (NgControl.with_path (fill_last path0 (formControlName (accessors w this)))
                                (controls w (_control (accessors w this)))) w.
Proof.
  unfold has_parent_and_path, path_of, _parsedName, parsed_ancestors.
  destruct (NgControl._parent (controls w (_control (accessors w this)))) as [parent|];
    [|discriminate].
  destruct (NgControl.path (controls w (_control (accessors w this)))) as [[|h t]|];
    try discriminate.
  intros _. exists (h :: t). repeat split. discriminate.
Qed.

(** The getter, for a control without parent, without path or with an
    empty path. *)
Lemma parsedName_without_path (this : nat) (w : World) :
  has_parent_and_path this w = false ->
  _parsedName this w = (formControlName (accessors w this), w).
Proof.
  unfold has_parent_and_path, path_of, _parsedName.
  destruct (NgControl._parent (controls w (_control (accessors w this)))) as [parent|];
    trivial.
  destruct (NgControl.path (controls w (_control (accessors w this)))) as [[|h t]|];
    trivial; discriminate.
Qed.

(** Reading the getter a second time gives the same name. *)
Lemma parsedName_again (this : nat) (w : World) :
  fst (_parsedName this (snd (_parsedName this w))) = fst (_parsedName this w).
Proof.
  destruct (has_parent_and_path this w) eqn:H.
  - unfold has_parent_and_path, path_of in H. unfold _parsedName.
    destruct (NgControl._parent (controls w (_control (accessors w this)))) as [parent|] eqn:P;
      [|discriminate].
    destruct (NgControl.path (controls w (_control (accessors w this)))) as [[|h t]|] eqn:Q;
      try discriminate.
    cbn [snd fst with_control accessors controls containers].
    rewrite store_same. cbn [NgControl._parent NgControl.path NgControl.with_path].
    rewrite P.
    pose proof (fill_last_nonempty (formControlName (accessors w this)) (h :: t)) as Hne.
    destruct (fill_last (h :: t) (formControlName (accessors w this))) as [|h' t'] eqn:F.
    + exfalso. apply Hne; [discriminate | reflexivity].
    + cbn [fst]. rewrite <- F, fill_last_twice. reflexivity.
  - rewrite (parsedName_without_path this w H). cbn [snd].
    now rewrite (parsedName_without_path this w H).
Qed.

Lemma map_nth_seq {A : Type} (l : list A) (d : A) :
  map (fun i => nth i l d) (seq 0 (length l)) = l.
Proof.
  induction l as [|h t IH]; trivial.
  cbn [length seq map nth]. rewrite <- seq_shift, map_map. cbn [nth].
  now rewrite IH.
Qed.

(** The segments of the parsed ancestors are those of the path, in order. *)
Lemma parse_ancestors_names (path : list Js.str) (ancestors : list AbstractControl) :
  map ParsedAncestor.name (parse_ancestors path ancestors) = path.
Proof.
  unfold parse_ancestors. rewrite map_map. cbn [ParsedAncestor.name].
  apply map_nth_seq.
Qed.

(** C2, as amended.  For a control with a parent and a path that is not
    empty and whose first segment is not the empty string, the computed
    name is built from the segments of the path from left to right: the
    first segment bare, and each later segment as [.segment], except that
    a segment whose previous segment's ancestor is array-like is rendered
    as [[segment]] with no dot before it.  For the path addresses, 0,
    street under root -> array -> element group, the name is
    addresses[0].street. *)
Theorem parsedName_builds_name_left_to_right (w : World) (this : nat) :
  has_parent_and_path this w = true ->
  starts_nonempty (parsed_ancestors this w) = true ->
  name_is_dotted this w
  /\ fst (_parsedName 1 (resolve_control 1 addresses_world))
     = Js.SString "addresses[0].street".
Proof.
  intros H Hne.
  destruct (parsedName_with_path this w H) as (path0 & _ & _ & Hname & _).
  split; [|reflexivity].
  unfold name_is_dotted. rewrite Hname. f_equal.
  now apply build_name_dotted.
Qed.

Lemma parsedName_builds_name_left_to_right_witness :
  has_parent_and_path 1 (resolve_control 1 addresses_world) = true
  /\ starts_nonempty (parsed_ancestors 1 (resolve_control 1 addresses_world)) = true
  /\ name_is_dotted 1 (resolve_control 1 addresses_world).
Proof.
  split; [reflexivity|]. split; [reflexivity|].
  exact (proj1 (parsedName_builds_name_left_to_right
                  (resolve_control 1 addresses_world) 1 eq_refl eq_refl)).
Defined.

(** Whatever the segments, the name is the result of the loop, and the
    loop adds the piece of each segment at the right end. *)
Lemma parsedName_pieces (w : World) (this : nat) :
  has_parent_and_path this w = true ->
  fst (_parsedName this w) = Js.SString (build_name (parsed_ancestors this w))
  /\ forall l p,
       build_name (l ++ [p])
       = (build_name l ++ piece (build_name l) (last_is_array l) p)%string.
Proof.
  intros H.
  destruct (parsedName_with_path this w H) as (path0 & _ & _ & Hname & _).
  split; [exact Hname | apply build_name_snoc].
Qed.

(** The path whose first segment is the empty string: the code gives [a],
    the dots-and-brackets rule [.a]. *)
Lemma parsedName_drops_dot_after_empty_segment :
  has_parent_and_path 1 (resolve_control 1 empty_segment_world) = true
  /\ ~ name_is_dotted 1 (resolve_control 1 empty_segment_world).
Proof.
  split; [reflexivity|].
  intros H. unfold name_is_dotted in H. vm_compute in H. discriminate H.
Qed.

Example parsedName_of_empty_segment_world :
  fst (_parsedName 1 (resolve_control 1 empty_segment_world)) = Js.SString "a"
  /\ dotted_name (parsed_ancestors 1 (resolve_control 1 empty_segment_world)) = ".a".
Proof. split; reflexivity. Qed.

Example ngOnInit_names_the_street :
  name (accessors (world_of (ngOnInit 1 addresses_world)) 1)
  = Js.SString "addresses[0].street".
Proof. reflexivity. Qed.

(** The guarded write of the getter, on the stored path: an unset last
    segment (null or undefined) receives [formControlName]; the segments
    before the last are not touched. *)
Lemma parsedName_fills_unset_last_segment (w : World) (this : nat) :
  has_parent_and_path this w = true ->
  exists path0 path,
    path_of this w = Some path0
    /\ path_of this (snd (_parsedName this w)) = Some path
    /\ removelast path = removelast path0
    /\ last path Js.SUndefined
       = (if Js.nullish (last path0 Js.SUndefined)
          then formControlName (accessors w this)
          else last path0 Js.SUndefined).
Proof.
  intros H.
  destruct (parsedName_with_path this w H) as (path0 & Hpath & Hne & _ & Hworld).
  exists path0, (fill_last path0 (formControlName (accessors w this))).
  split; [exact Hpath|].
  destruct (exists_last Hne) as (q & x & ->).
  rewrite fill_last_snoc, !removelast_last, !last_last.
  repeat split.
  rewrite Hworld. unfold path_of, with_control; cbn.
  rewrite store_same. cbn. now rewrite fill_last_snoc.
Qed.

Lemma parsedName_fills_unset_last_segment_witness :
  has_parent_and_path 1 (resolve_control 1 unset_segment_world) = true
  /\ exists path0 path,
       path_of 1 (resolve_control 1 unset_segment_world) = Some path0
       /\ path_of 1 (snd (_parsedName 1 (resolve_control 1 unset_segment_world))) = Some path
       /\ removelast path = removelast path0
       /\ last path Js.SUndefined
          = (if Js.nullish (last path0 Js.SUndefined)
             then formControlName (accessors (resolve_control 1 unset_segment_world) 1)
             else last path0 Js.SUndefined).
Proof.
  split; [reflexivity|].
  exact (parsedName_fills_unset_last_segment (resolve_control 1 unset_segment_world) 1 eq_refl).
Defined.

(** A path that ends in [b] under [formControlName] [c]: the last segment
    stays [b]. *)
Lemma parsedName_keeps_set_last_segment :
  has_parent_and_path 1 (resolve_control 1 mismatch_world) = true
  /\ ~ last_segment_is_formControlName 1 (resolve_control 1 mismatch_world).
Proof.
  split; [reflexivity|].
  intros (path & Hpath & Hlast).
  vm_compute in Hpath. injection Hpath as <-.
  vm_compute in Hlast. discriminate Hlast.
Qed.


Example parsedName_fills_in_unset_segment_world :
  path_of 1 (snd (_parsedName 1 (resolve_control 1 unset_segment_world)))
  = Some [Js.SString "a"; Js.SString "c"].
Proof. reflexivity. Qed.

(* ================================================================= *)
(** ** The name check at attach time *)

(** The getter writes to the path of the control and to nothing else. *)
Lemma parsedName_keeps (this : nat) (w : World) :
  accessors (snd (_parsedName this w)) = accessors w
  /\ _accessors (snd (_parsedName this w)) = _accessors w.
Proof.
  destruct (has_parent_and_path this w) eqn:H.
  - destruct (parsedName_with_path this w H) as (path0 & _ & _ & _ & ->).
    split; reflexivity.
  - rewrite (parsedName_without_path this w H). split; reflexivity.
Qed.

Lemma resolve_control_self (this : nat) (w : World) :
  accessors (resolve_control this w) this
  = set_control (_injector (accessors w this)) (accessors w this).
Proof. unfold resolve_control, with_accessor; cbn. apply store_same. Qed.

(** C4, as amended.  If at attach time the explicit name and
    [formControlName] are both set and not empty, and the name is not
    [===] to the computed name, then [ngOnInit] throws the name error,
    which carries the name and the computed name, and the accessor is not
    added: the registry is as it was. *)
Theorem ngOnInit_throws_on_name_conflict (w : World) (this : nat) :
  let computed := fst (_parsedName this (resolve_control this w)) in
  Js.truthy (name (accessors w this)) = true ->
  Js.truthy (formControlName (accessors w this)) = true ->
  Js.str_eq (name (accessors w this)) computed = false ->
  attach_aborted this w
  /\ exists w',
       ngOnInit this w = Thrown (NameError (name (accessors w this)) computed) w'
       /\ _accessors w' = _accessors w.
Proof.
  intros computed Hname Hfcn Hdiff.
  assert (exists w',
             ngOnInit this w = Thrown (NameError (name (accessors w this)) computed) w'
             /\ _accessors w' = _accessors w) as (w' & Hthrown & Hreg).
  { unfold ngOnInit, _checkName. rewrite resolve_control_self.
    cbn [name formControlName set_control]. rewrite Hname, Hfcn. cbn [andb].
    pose proof (parsedName_again this (resolve_control this w)) as Hagain.
    pose proof (parsedName_keeps this (resolve_control this w)) as (Hacc1 & Hreg1).
    fold computed in Hagain. subst computed.
    destruct (_parsedName this (resolve_control this w)) as [parsedName w1].
    cbn [fst snd] in *. rewrite Hdiff. cbn [negb].
    pose proof (parsedName_keeps this w1) as (_ & Hreg2).
    destruct (_parsedName this w1) as [parsedName' w2].
    cbn [fst snd] in *. subst parsedName'.
    exists w2. unfold _throwNameError. rewrite Hacc1, resolve_control_self.
    split; [reflexivity|]. now rewrite Hreg2, Hreg1. }
  split; [|now exists w'].
  unfold attach_aborted. rewrite Hthrown. split; [reflexivity | exact Hreg].
Qed.

Lemma ngOnInit_throws_on_name_conflict_witness :
  Js.truthy (name (accessors conflict_world 1)) = true
  /\ Js.truthy (formControlName (accessors conflict_world 1)) = true
  /\ Js.str_eq (name (accessors conflict_world 1))
               (fst (_parsedName 1 (resolve_control 1 conflict_world))) = false
  /\ attach_aborted 1 conflict_world.
Proof.
  split; [reflexivity|]. split; [reflexivity|]. split; [reflexivity|].
  exact (proj1 (ngOnInit_throws_on_name_conflict conflict_world 1 eq_refl eq_refl eq_refl)).
Defined.

(** A template-driven radio named [x] in a group [g]: the computed name
    is [g.x], nothing is thrown and the accessor is registered. *)
Lemma ngOnInit_accepts_name_without_formControlName :
  names_exist_and_differ 1 template_driven_world = true
  /\ ~ attach_aborted 1 template_driven_world.
Proof.
  split; [reflexivity|].
  intros [H _]. vm_compute in H. discriminate H.
Qed.

Example ngOnInit_in_template_driven_world :
  fst (_parsedName 1 (resolve_control 1 template_driven_world)) = Js.SString "g.x"
  /\ threw (ngOnInit 1 template_driven_world) = false
  /\ _accessors (world_of (ngOnInit 1 template_driven_world)) = [(12, 2); (11, 1)].
Proof. repeat split. Qed.

Example ngOnInit_in_conflict_world :
  exists w, ngOnInit 1 conflict_world
            = Thrown (NameError (Js.SString "x") (Js.SString "y")) w
            /\ _accessors w = [(12, 2)].
Proof. eexists. split; reflexivity. Qed.

(** C9.  If [formControlName] is unset (or null, or the empty string),
    [ngOnInit] does not throw, does not write the name, and registers the
    accessor with the control that the injector gives, whatever the
    explicit name is. *)
Theorem ngOnInit_without_formControlName (w : World) (this : nat) :
  Js.truthy (formControlName (accessors w this)) = false ->
  ngOnInit this w
  = Returned (add (_injector (accessors w this)) this (resolve_control this w))
  /\ threw (ngOnInit this w) = false
  /\ name (accessors (world_of (ngOnInit this w)) this) = name (accessors w this)
  /\ _accessors (world_of (ngOnInit this w))
     = _accessors w ++ [(_injector (accessors w this), this)].
Proof.
  intros Hfcn.
  assert (ngOnInit this w
          = Returned (add (_injector (accessors w this)) this (resolve_control this w)))
    as Hreturned.
  { unfold ngOnInit, _checkName, default_name. rewrite resolve_control_self.
    cbn [name formControlName set_control]. rewrite Hfcn, !andb_false_r.
    now rewrite resolve_control_self. }
  rewrite Hreturned. cbn [threw world_of]. repeat split.
  unfold add, with_registry; cbn [accessors]. now rewrite resolve_control_self.
Qed.

Lemma ngOnInit_without_formControlName_witness :
  Js.truthy (formControlName (accessors template_driven_world 1)) = false
  /\ threw (ngOnInit 1 template_driven_world) = false
  /\ name (accessors (world_of (ngOnInit 1 template_driven_world)) 1) = Js.SString "x"
  /\ _accessors (world_of (ngOnInit 1 template_driven_world)) = [(12, 2); (11, 1)].
Proof.
  split; [reflexivity|].
  exact (proj2 (ngOnInit_without_formControlName template_driven_world 1 eq_refl)).
Defined.


(* ================================================================= *)
(** ** More on add and remove *)

Lemma remove_scan_appended (control a : nat) (l : list (nat * nat)) :
  remove_scan a (l ++ [(control, a)]) (length (l ++ [(control, a)])) = l.
Proof.
  rewrite length_app, Nat.add_1_r. cbn [remove_scan].
  rewrite nth_error_app2, Nat.sub_diag by lia. cbn [nth_error snd].
  rewrite Nat.eqb_refl, splice_one.
  rewrite firstn_app, firstn_all, Nat.sub_diag. cbn [firstn].
  rewrite skipn_all2 by (rewrite length_app; cbn; lia).
  now rewrite !app_nil_r.
Qed.

(** X1.  When the registry holds the accessor, [remove] takes out its last
    pairing and only that: the array is the pairings before it followed by
    the pairings after it, in their order, and none of the pairings after
    it is one of the accessor. *)
Theorem remove_takes_out_last_pairing (a : nat) (w : World) :
  registered a (_accessors w) = true ->
  exists l1 c l2,
    _accessors w = l1 ++ c :: l2 /\ snd c = a /\ registered a l2 = false
    /\ _accessors (remove a w) = l1 ++ l2.
Proof. apply remove_split. Qed.

Lemma remove_takes_out_last_pairing_witness :
  registered 1 (_accessors (run [OpAdd 11 1; OpAdd 12 2; OpAdd 13 1; OpAdd 14 3] empty_world)) = true
  /\ exists l1 c l2,
       _accessors (run [OpAdd 11 1; OpAdd 12 2; OpAdd 13 1; OpAdd 14 3] empty_world)
       = l1 ++ c :: l2
       /\ snd c = 1 /\ registered 1 l2 = false
       /\ _accessors (remove 1 (run [OpAdd 11 1; OpAdd 12 2; OpAdd 13 1; OpAdd 14 3] empty_world))
          = l1 ++ l2.
Proof.
  split; [reflexivity|].
  exact (remove_takes_out_last_pairing 1
           (run [OpAdd 11 1; OpAdd 12 2; OpAdd 13 1; OpAdd 14 3] empty_world) eq_refl).
Defined.

(** X2.  [remove(accessor)] right after [add(control, accessor)] gives the
    world back as it was, whatever the registry held, also other pairings
    of the same accessor. *)
Theorem remove_after_add (control a : nat) (w : World) :
  remove a (add control a w) = w.
Proof.
  unfold remove, add, with_registry; cbn [_accessors accessors controls containers trace].
  rewrite remove_scan_appended. now destruct w.
Qed.

(** X3.  [remove(accessor)] leaves the pairings of every other accessor in
    the registry, in their order, and writes nothing but the registry:
    accessors, controls and trace are as they were. *)
Theorem remove_keeps_other_pairings (a : nat) (w : World) :
  filter (fun c => negb (Nat.eqb (snd c) a)) (_accessors (remove a w))
  = filter (fun c => negb (Nat.eqb (snd c) a)) (_accessors w)
  /\ accessors (remove a w) = accessors w
  /\ controls (remove a w) = controls w
  /\ containers (remove a w) = containers w
  /\ trace (remove a w) = trace w.
Proof.
  split; [|repeat split].
  destruct (registered a (_accessors w)) eqn:R.
  - destruct (remove_split a w R) as (l1 & c & l2 & -> & Hc & _ & ->).
    rewrite !filter_app. cbn [filter]. now rewrite Hc, Nat.eqb_refl.
  - now rewrite remove_unregistered.
Qed.

(* ================================================================= *)
(** ** More on attach and detach *)

(** What [_checkName] does, case by case. *)
Lemma checkName_outcome (this : nat) (w : World) :
  let self := accessors w this in
  let computed := fst (_parsedName this w) in
  threw (_checkName this w)
  = Js.truthy (name self) && Js.truthy (formControlName self)
    && negb (Js.str_eq (name self) computed)
  /\ _accessors (world_of (_checkName this w)) = _accessors w
  /\ _control (accessors (world_of (_checkName this w)) this) = _control self
  /\ name (accessors (world_of (_checkName this w)) this)
     = if Js.truthy (name self) then name self
       else if Js.truthy (formControlName self) then computed else name self.
Proof.
  cbv zeta. unfold _checkName, default_name.
  pose proof (parsedName_keeps this w) as (Hacc & Hreg).
  destruct (Js.truthy (name (accessors w this))) eqn:Hn;
    destruct (Js.truthy (formControlName (accessors w this))) eqn:Hf; cbn [andb negb].
  - destruct (_parsedName this w) as [parsedName w1]. cbn [fst snd] in *.
    destruct (Js.str_eq (name (accessors w this)) parsedName); cbn [negb].
    + rewrite Hacc, Hn. cbn [negb andb threw world_of]. rewrite Hacc. now repeat split.
    + pose proof (parsedName_keeps this w1) as (Hacc' & Hreg').
      destruct (_parsedName this w1) as [parsedName' w2]. cbn [fst snd] in *.
      unfold _throwNameError. cbn [threw world_of]. rewrite Hacc', Hacc.
      repeat split. congruence.
  - cbn [threw world_of]. now repeat split.
  - destruct (_parsedName this w) as [parsedName w1]. cbn [fst snd] in *.
    cbn [threw world_of with_accessor accessors _accessors].
    rewrite store_same, Hacc. now repeat split.
  - cbn [threw world_of]. now repeat split.
Qed.

(** What [ngOnInit] does, case by case. *)
Lemma ngOnInit_outcome (this : nat) (w : World) :
  let self := accessors w this in
  let computed := fst (_parsedName this (resolve_control this w)) in
  threw (ngOnInit this w) = name_conflict this w
  /\ _accessors (world_of (ngOnInit this w))
     = (if name_conflict this w then _accessors w
        else _accessors w ++ [(_injector self, this)])
  /\ _control (accessors (world_of (ngOnInit this w)) this) = _injector self
  /\ name (accessors (world_of (ngOnInit this w)) this)
     = if Js.truthy (name self) then name self
       else if Js.truthy (formControlName self) then computed else name self.
Proof.
  cbv zeta. unfold ngOnInit, name_conflict. cbv zeta.
  pose proof (checkName_outcome this (resolve_control this w)) as Hcheck.
  cbv zeta in Hcheck. rewrite resolve_control_self in Hcheck.
  cbn [name formControlName _control set_control] in Hcheck.
  destruct Hcheck as (Hthrew & Hreg & Hctl & Hname).
  rewrite <- Hthrew.
  destruct (_checkName this (resolve_control this w)) as [w2|e w2];
    cbn [threw world_of] in *.
  - cbn [add with_registry accessors _accessors]. rewrite Hreg, Hctl.
    now repeat split.
  - now repeat split.
Qed.

(** X4.  [ngOnInit] throws exactly when the name and [formControlName]
    are both truthy and the name is not [===] to the computed name.  When
    it throws the registry is as it was; when it returns, the registry is
    the old one followed by the pairing of the injector's control with
    the accessor.  In both cases [_control] has been set to the
    injector's control. *)
Theorem ngOnInit_throws_exactly_on_conflict (this : nat) (w : World) :
  threw (ngOnInit this w) = name_conflict this w
  /\ _accessors (world_of (ngOnInit this w))
     = (if name_conflict this w then _accessors w
        else _accessors w ++ [(_injector (accessors w this), this)])
  /\ _control (accessors (world_of (ngOnInit this w)) this)
     = _injector (accessors w this).
Proof.
  destruct (ngOnInit_outcome this w) as (H1 & H2 & H3 & _). now repeat split.
Qed.

(** X5.  After [ngOnInit], thrown or not, the name of the accessor is its
    explicit name when that is truthy; otherwise it is the computed name
    when [formControlName] is truthy; otherwise it is left as it was
    (unset, null or empty). *)
Theorem ngOnInit_defaults_name_to_computed (this : nat) (w : World) :
  name (accessors (world_of (ngOnInit this w)) this)
  = if Js.truthy (name (accessors w this)) then name (accessors w this)
    else if Js.truthy (formControlName (accessors w this))
         then fst (_parsedName this (resolve_control this w))
         else name (accessors w this).
Proof. apply ngOnInit_outcome. Qed.

(** X6.  [ngOnDestroy] after an [ngOnInit] that returned gives the
    registry back as it was before the attach; after an [ngOnInit] that
    threw, it acts on the registry as it was before the attach. *)
Theorem ngOnDestroy_undoes_ngOnInit (this : nat) (w : World) :
  _accessors (ngOnDestroy this (world_of (ngOnInit this w)))
  = if threw (ngOnInit this w) then _accessors (remove this w) else _accessors w.
Proof.
  destruct (ngOnInit_outcome this w) as (Hthrew & Hreg & _).
  unfold ngOnDestroy, remove. cbn [with_registry _accessors].
  rewrite Hreg, Hthrew.
  destruct (name_conflict this w); trivial.
  apply remove_scan_appended.
Qed.

Example ngOnInit_defaults_name_in_unset_segment_world :
  name (accessors (world_of (ngOnInit 1 unset_segment_world)) 1) = Js.SString "a.c".
Proof. reflexivity. Qed.

(* ================================================================= *)
(** ** More on the computed name *)

(** The path of the control after the getter has been read. *)
Lemma parsedName_path (this : nat) (w : World) :
  has_parent_and_path this w = true ->
  exists path0,
    path_of this w = Some path0 /\ path0 <> []
    /\ path_of this (snd (_parsedName this w))
       = Some (fill_last path0 (formControlName (accessors w this)))
    /\ parent_of this (snd (_parsedName this w)) = parent_of this w
    /\ has_parent_and_path this (snd (_parsedName this w)) = true.
Proof.
  intros H.
  destruct (parsedName_with_path this w H) as (path0 & Hpath & Hne & _ & Hworld).
  exists path0. split; [exact Hpath|]. split; [exact Hne|].
  pose proof (fill_last_nonempty (formControlName (accessors w this)) path0 Hne) as Hfilled.
  rewrite Hworld.
  unfold has_parent_and_path, parent_of, path_of in *.
  cbn [with_control accessors controls]. rewrite store_same.
  cbn [NgControl.with_path NgControl._parent NgControl.path].
  repeat split.
  destruct (NgControl._parent (controls w (_control (accessors w this)))); [|discriminate].
  destruct (fill_last path0 (formControlName (accessors w this))); [contradiction | reflexivity].
Qed.

(** X7.  For a control without parent, without path or with an empty
    path, the computed name is [formControlName] as it is (also unset)
    and reading it writes nothing. *)
Theorem parsedName_without_parent_or_path (this : nat) (w : World) :
  parent_of this w = None \/ path_of this w = None \/ path_of this w = Some [] ->
  _parsedName this w = (formControlName (accessors w this), w).
Proof.
  intros H. apply parsedName_without_path.
  unfold has_parent_and_path. fold (parent_of this w).
  destruct H as [-> | [-> | ->]]; trivial; now destruct (parent_of this w).
Qed.

Lemma parsedName_without_parent_or_path_witness :
  (parent_of 1 colours_world = None \/ path_of 1 colours_world = None
   \/ path_of 1 colours_world = Some [])
  /\ _parsedName 1 colours_world = (formControlName (accessors colours_world 1), colours_world).
Proof.
  split; [right; left; reflexivity|].
  exact (parsedName_without_parent_or_path 1 colours_world (or_intror (or_introl eq_refl))).
Defined.

(** X8.  Reading the computed name a second time gives the same name and
    leaves the path as the first reading left it. *)
Theorem parsedName_read_twice (this : nat) (w : World) :
  fst (_parsedName this (snd (_parsedName this w))) = fst (_parsedName this w)
  /\ path_of this (snd (_parsedName this (snd (_parsedName this w))))
     = path_of this (snd (_parsedName this w)).
Proof.
  split; [apply parsedName_again|].
  destruct (has_parent_and_path this w) eqn:H.
  - destruct (parsedName_path this w H) as (path0 & _ & _ & Hpath & _ & Hstill).
    destruct (parsedName_path this _ Hstill) as (path1 & Hpath1 & _ & Hpath2 & _).
    rewrite Hpath in Hpath1. injection Hpath1 as <-.
    rewrite Hpath2, Hpath. f_equal.
    destruct (parsedName_keeps this w) as (-> & _).
    apply fill_last_twice.
  - rewrite (parsedName_without_path this w H). cbn [snd].
    now rewrite (parsedName_without_path this w H).
Qed.

(** X9.  Reading the computed name writes at most the path of the control
    of the accessor: the accessors, the registry, the containers, the
    trace and every other control are as they were, and so are the parent
    and the model node of the control itself. *)
Theorem parsedName_writes_only_the_path (this : nat) (w : World) :
  let w' := snd (_parsedName this w) in
  let c := _control (accessors w this) in
  accessors w' = accessors w
  /\ _accessors w' = _accessors w
  /\ containers w' = containers w
  /\ trace w' = trace w
  /\ (forall r, r <> c -> controls w' r = controls w r)
  /\ NgControl._parent (controls w' c) = NgControl._parent (controls w c)
  /\ NgControl.control (controls w' c) = NgControl.control (controls w c).
Proof.
  cbv zeta. destruct (has_parent_and_path this w) eqn:H.
  - destruct (parsedName_with_path this w H) as (path0 & _ & _ & _ & ->).
    cbn [with_control accessors controls containers _accessors trace].
    rewrite store_same. repeat split.
    intros r Hr. now apply store_other.
  - rewrite (parsedName_without_path this w H). cbn [snd]. now repeat split.
Qed.

Lemma parse_ancestors_plain (path : list Js.str) (ancestors : list AbstractControl) :
  no_array ancestors = true ->
  forallb (fun p => negb (ParsedAncestor.isArray p)) (parse_ancestors path ancestors) = true.
Proof.
  intros H. apply forallb_forall. intros p Hp.
  apply in_map_iff in Hp as (i & <- & _). cbn [ParsedAncestor.isArray].
  destruct (nth_error ancestors i) as [x|] eqn:E; trivial. cbn [is_array].
  unfold no_array in H. rewrite forallb_forall in H.
  apply H. eapply nth_error_In; eauto.
Qed.

Lemma string_append_nil_r (a : string) : (a ++ EmptyString)%string = a.
Proof. induction a as [|x a IH]; cbn; [|rewrite IH]; reflexivity. Qed.

Lemma concat_two (sep x y : string) (rest : list string) :
  String.concat sep (x :: y :: rest) = (x ++ sep ++ String.concat sep (y :: rest))%string.
Proof. reflexivity. Qed.

Lemma dotted_rest_plain (rest : list ParsedAncestor.t) :
  forallb (fun p => negb (ParsedAncestor.isArray p)) rest = true ->
  forall first,
    (first ++ dotted_rest false rest)%string
    = String.concat "." (first :: map (fun p => Js.to_text (ParsedAncestor.name p)) rest).
Proof.
  induction rest as [|p rest IH]; intros Hall first; cbn [dotted_rest map].
  - apply string_append_nil_r.
  - cbn [forallb] in Hall. apply andb_prop in Hall as (Hp & Hrest).
    apply negb_true_iff in Hp. rewrite Hp.
    rewrite concat_two, <- (IH Hrest). reflexivity.
Qed.

Lemma dotted_name_plain (l : list ParsedAncestor.t) :
  forallb (fun p => negb (ParsedAncestor.isArray p)) l = true ->
  dotted_name l = String.concat "." (map Js.to_text (map ParsedAncestor.name l)).
Proof.
  rewrite map_map. destruct l as [|p rest]; trivial. cbn [forallb dotted_name map].
  intros Hall. apply andb_prop in Hall as (Hp & Hrest).
  apply negb_true_iff in Hp. rewrite Hp. now apply dotted_rest_plain.
Qed.

(** X10.  For a control with a parent and a path that is not empty, none
    of whose ancestors is array-like, and whose first segment is not the
    empty string, the computed name is the segments of the path (the last
    one filled in) joined by dots. *)
Theorem parsedName_joins_with_dots (this : nat) (w : World) (parent : nat) (path : list Js.str) :
  has_parent_and_path this w = true ->
  parent_of this w = Some parent ->
  no_array (ancestors_of (containers w parent)) = true ->
  path_of this (snd (_parsedName this w)) = Some path ->
  first_segment_nonempty path = true ->
  fst (_parsedName this w) = Js.SString (String.concat "." (map Js.to_text path)).
Proof.
  intros H Hparent Hplain Hpath Hfirst.
  destruct (parsedName_with_path this w H) as (path0 & Hpath0 & _ & Hname & _).
  destruct (parsedName_path this w H) as (path0' & Hpath0' & _ & Hfilled & _).
  rewrite Hpath0 in Hpath0'. injection Hpath0' as <-.
  rewrite Hpath in Hfilled. injection Hfilled as ->.
  rewrite Hname. f_equal.
  unfold parsed_ancestors. fold (parent_of this w) (path_of this w).
  rewrite Hparent, Hpath0.
  set (l := parse_ancestors _ _).
  assert (map ParsedAncestor.name l = fill_last path0 (formControlName (accessors w this)))
    as Hnames by apply parse_ancestors_names.
  rewrite <- Hnames.
  rewrite build_name_dotted.
  - apply dotted_name_plain. now apply parse_ancestors_plain.
  - rewrite <- Hnames in Hfirst. now destruct l.
Qed.

Lemma parsedName_joins_with_dots_witness :
  has_parent_and_path 1 (resolve_control 1 unset_segment_world) = true
  /\ parent_of 1 (resolve_control 1 unset_segment_world) = Some 7
  /\ no_array (ancestors_of (containers (resolve_control 1 unset_segment_world) 7)) = true
  /\ path_of 1 (snd (_parsedName 1 (resolve_control 1 unset_segment_world)))
     = Some [Js.SString "a"; Js.SString "c"]
  /\ first_segment_nonempty [Js.SString "a"; Js.SString "c"] = true
  /\ fst (_parsedName 1 (resolve_control 1 unset_segment_world)) = Js.SString "a.c".
Proof.
  repeat (split; [reflexivity|]).
  exact (parsedName_joins_with_dots 1 (resolve_control 1 unset_segment_world) 7
           [Js.SString "a"; Js.SString "c"] eq_refl eq_refl eq_refl eq_refl eq_refl).
Defined.

(* ================================================================= *)
(** ** More on select *)

(** [select] run again from the world it left. *)
Lemma select_again (a : nat) (w : World) :
  let v := value (accessors w a) in
  let w' := select a w in
  trace (select a w')
  = trace w' ++ flat_map (uncheck_events w v) (filter (notified w a) (_accessors w))
  /\ forall r,
       accessors (select a w') r
       = if existsb (fun c => notified w a c && Nat.eqb (snd c) r) (_accessors w)
         then set_state (Some (Js.strict_eq v (value (accessors w r)))) (accessors w' r)
         else accessors w' r.
Proof.
  cbv zeta.
  destruct (select_effect a w) as (_ & _ & Hreg & _).
  assert (select a (select a w)
          = fold_left (select_visit a) (_accessors w) (select a w)) as ->.
  { unfold select at 1. now rewrite Hreg. }
  destruct (select_loop a w (_accessors w) (select a w) (select_view a w))
    as (_ & _ & _ & Htrace & Hacc).
  split; [exact Htrace | exact Hacc].
Qed.

(** X11.  [select(a)] run a second time right after the first makes the
    same calls of [fireUncheck] and leaves every accessor as the first
    run left it. *)
Theorem select_twice (a : nat) (w : World) :
  (forall r, accessors (select a (select a w)) r = accessors (select a w) r)
  /\ fireUncheck_calls (new_events (select a w) (select a (select a w)))
     = fireUncheck_calls (new_events w (select a w)).
Proof.
  destruct (select_again a w) as (Htrace & Hacc).
  destruct (select_effect a w) as (_ & _ & _ & _ & Hfirst).
  split.
  - intros r. rewrite Hacc, Hfirst.
    destruct (existsb _ (_accessors w)); reflexivity.
  - rewrite (new_events_app _ _ _ Htrace), select_calls.
    apply fireUncheck_calls_of_uncheck_events.
Qed.

Lemma notified_not_self (w : World) (a : nat) (l : list (nat * nat)) :
  existsb (fun c => notified w a c && Nat.eqb (snd c) a) l = false.
Proof.
  induction l as [|c l IH]; cbn [existsb]; trivial.
  rewrite IH, orb_false_r. unfold notified.
  destruct (Nat.eqb (snd c) a); cbn; now rewrite ?andb_false_r.
Qed.

Lemma notified_same_name (w : World) (a r : nat) (l : list (nat * nat)) :
  Js.str_eq (name (accessors w r)) (name (accessors w a)) = false ->
  existsb (fun c => notified w a c && Nat.eqb (snd c) r) l = false.
Proof.
  intros Hname. induction l as [|c l IH]; cbn [existsb]; trivial.
  rewrite IH, orb_false_r.
  destruct (Nat.eqb (snd c) r) eqn:E; [|apply andb_false_r].
  apply Nat.eqb_eq in E. subst r.
  unfold notified. rewrite isSameGroup_resolved_same_group. unfold same_group.
  rewrite Hname. now rewrite !andb_false_r.
Qed.

(** X12.  [select(a)] writes nothing but the checked state of accessors:
    the registry, the controls and the containers are as they were, every
    accessor keeps all its other fields, the accessor [a] itself is left
    as it was, and so is every accessor whose name is not [===] to the
    name of [a]. *)
Theorem select_writes_only_states_of_same_name (a : nat) (w : World) :
  _accessors (select a w) = _accessors w
  /\ controls (select a w) = controls w
  /\ containers (select a w) = containers w
  /\ (forall r, set_state None (accessors (select a w) r) = set_state None (accessors w r))
  /\ accessors (select a w) a = accessors w a
  /\ (forall r, Js.str_eq (name (accessors w r)) (name (accessors w a)) = false ->
                accessors (select a w) r = accessors w r).
Proof.
  destruct (select_effect a w) as (Hctl & Hcont & Hreg & _ & Hacc).
  split; [exact Hreg|]. split; [exact Hctl|]. split; [exact Hcont|].
  split; [|split].
  - intros r. rewrite Hacc. now destruct (existsb _ (_accessors w)).
  - now rewrite Hacc, notified_not_self.
  - intros r Hname. now rewrite Hacc, notified_same_name.
Qed.

(** [select] does not reach an accessor that the registry does not hold. *)
Lemma select_unregistered (a b : nat) (w : World) :
  registered b (_accessors w) = false ->
  accessors (select a w) b = accessors w b
  /\ ~ In b (map fst (fireUncheck_calls (new_events w (select a w)))).
Proof.
  intros Hb. split.
  - destruct (select_effect a w) as (_ & _ & _ & _ & Hacc). rewrite Hacc.
    destruct (existsb _ (_accessors w)) eqn:E; trivial.
    apply existsb_exists in E as (c & Hc & Hn).
    apply andb_prop in Hn as (_ & Hs).
    assert (registered b (_accessors w) = true) as Hreg
      by (apply existsb_exists; now exists c).
    congruence.
  - rewrite select_calls, map_map. cbn [fst]. intros Hin.
    apply in_map_iff in Hin as (c & Hs & Hf). apply filter_In in Hf as (Hc & _).
    assert (registered b (_accessors w) = true) as Hreg.
    { apply existsb_exists. exists c. split; trivial. now apply Nat.eqb_eq. }
    congruence.
Qed.

(** X13.  An accessor that the registry holds at most once receives no
    [fireUncheck] after its [ngOnDestroy]: a later [select], of whatever
    accessor, does not call it and leaves it as it is. *)
Theorem select_never_reaches_detached (a b : nat) (w : World) :
  occurrences b (_accessors w) <= 1 ->
  let w' := ngOnDestroy b w in
  accessors (select a w') b = accessors w' b
  /\ ~ In b (map fst (fireUncheck_calls (new_events w' (select a w')))).
Proof.
  intros Hone w'. apply select_unregistered.
  apply registered_occurrences. unfold w', ngOnDestroy.
  rewrite occurrences_remove_self. lia.
Qed.

Lemma select_never_reaches_detached_witness :
  occurrences 2 (_accessors colours_world) <= 1
  /\ ~ In 2 (map fst (fireUncheck_calls
                        (new_events (ngOnDestroy 2 colours_world)
                                    (select 1 (ngOnDestroy 2 colours_world))))).
Proof.
  split; [apply le_n|].
  exact (proj2 (select_never_reaches_detached 1 2 colours_world (le_n 1))).
Defined.

(** X14.  After [select(a)], an accessor that was notified shows as
    checked exactly when its declared value is [===] to the value of
    [a]: [fireUncheck] compares, it does not always uncheck. *)
Theorem select_checks_by_equality (w : World) (a : nat) (c : nat * nat) :
  In c (_accessors w) ->
  notified w a c = true ->
  checked (select a w) (snd c)
  = Js.strict_eq (value (accessors w a)) (value (accessors w (snd c))).
Proof.
  intros Hin Hn. unfold checked.
  rewrite (select_rechecks_by_equality w a c Hin Hn).
  now destruct (Js.strict_eq _ _).
Qed.

Lemma select_checks_by_equality_witness :
  In (12, 2) (_accessors same_value_world)
  /\ notified same_value_world 1 (12, 2) = true
  /\ checked (select 1 same_value_world) 2 = true.
Proof.
  split; [right; left; reflexivity|]. split; [reflexivity|].
  exact (select_checks_by_equality same_value_world 1 (12, 2)
           (or_intror (or_introl eq_refl)) eq_refl).
Defined.

(* ================================================================= *)
(** ** More on the hooks *)

Lemma call_view (w0 w : World) (fn : nat) (v : Js.value) :
  same_view w0 w -> same_view w0 (call fn v w).
Proof. intros [Hc Ha]. split; [exact Hc | exact Ha]. Qed.

Lemma registerOnChange_keeps_view (w0 w : World) (a fn : nat) :
  same_view w0 w -> same_view w0 (registerOnChange a fn w).
Proof.
  intros [Hc Ha]. split; [exact Hc|]. intros r.
  unfold registerOnChange, with_accessor. cbn [accessors]. unfold store.
  destruct (Nat.eqb r a) eqn:E; [|apply Ha].
  apply Nat.eqb_eq in E. subst r. cbn. apply Ha.
Qed.

Lemma registerOnTouched_keeps_view (w0 w : World) (a fn : nat) :
  same_view w0 w -> same_view w0 (registerOnTouched a fn w).
Proof.
  intros [Hc Ha]. split; [exact Hc|]. intros r.
  unfold registerOnTouched, with_accessor. cbn [accessors]. unfold store.
  destruct (Nat.eqb r a) eqn:E; [|apply Ha].
  apply Nat.eqb_eq in E. subst r. cbn. apply Ha.
Qed.

(** The change hook of an accessor that holds the closure for [fn], in a
    world that shows [select] what [w0] shows. *)
Lemma host_change_trace (a fn : nat) (w0 w : World) :
  same_view w0 w ->
  _accessors w = _accessors w0 ->
  onChange (accessors w a) = OnChange fn a ->
  let v := value (accessors w0 a) in
  host_change a w = select a (call fn v w)
  /\ trace (host_change a w)
     = trace w ++ Callback fn v
                  :: flat_map (uncheck_events w0 v) (filter (notified w0 a) (_accessors w0)).
Proof.
  intros Hv Hreg Hhook. cbv zeta.
  assert (value (accessors w a) = value (accessors w0 a)) as Hva by apply Hv.
  assert (host_change a w = select a (call fn (value (accessors w0 a)) w)) as Heq.
  { unfold host_change. now rewrite Hhook, Hva. }
  split; [exact Heq|].
  rewrite Heq. unfold select.
  change (_accessors (call fn (value (accessors w0 a)) w)) with (_accessors w).
  rewrite Hreg.
  destruct (select_loop a w0 (_accessors w0) (call fn (value (accessors w0 a)) w)
              (call_view w0 w fn _ Hv)) as (_ & _ & _ & Htrace & _).
  rewrite Htrace. cbn [call emit trace]. now rewrite <- app_assoc.
Qed.

(** X15.  When the change hook of an accessor that has registered [fn]
    runs in a group whose other members have resolved controls and values
    that are not [===] to its own, [fn] is called once, first, with the
    value of the accessor; afterwards every other member of the group is
    unchecked and the accessor's own state is as it was. *)
Theorem host_change_updates_model_and_unchecks_others (a fn : nat) (w : World) :
  onChange (accessors w a) = OnChange fn a ->
  others_resolved_and_differ w a = true ->
  let v := value (accessors w a) in
  trace (host_change a w)
  = trace w ++ Callback fn v
               :: flat_map (uncheck_events w v) (filter (notified w a) (_accessors w))
  /\ (forall b, in_group w a b = true -> b <> a -> checked (host_change a w) b = false)
  /\ accessors (host_change a w) a = accessors w a.
Proof.
  intros Hhook Hall v.
  destruct (host_change_trace a fn w w (same_view_refl w) eq_refl Hhook) as (Heq & Htrace).
  split; [exact Htrace|]. rewrite Heq. fold v. split.
  - intros b Hb Hba.
    apply (select_unchecks_others (call fn v w) a b); trivial.
  - destruct (select_effect a (call fn v w)) as (_ & _ & _ & _ & Hacc).
    now rewrite Hacc, notified_not_self.
Qed.

Lemma host_change_updates_model_and_unchecks_others_witness :
  onChange (accessors (registerOnChange 1 9 colours_world) 1) = OnChange 9 1
  /\ others_resolved_and_differ (registerOnChange 1 9 colours_world) 1 = true
  /\ trace (host_change 1 (registerOnChange 1 9 colours_world))
     = [Callback 9 (Js.VString "red");
        FireUncheck 2 (Js.VString "red"); SetProperty 112 "checked" (Js.VBool false);
        FireUncheck 3 (Js.VString "red"); SetProperty 113 "checked" (Js.VBool false)].
Proof.
  split; [reflexivity|]. split; [reflexivity|].
  exact (proj1 (host_change_updates_model_and_unchecks_others 1 9
                  (registerOnChange 1 9 colours_world) eq_refl eq_refl)).
Defined.

(** X16.  The hooks hold what was registered last, and the two hooks do
    not disturb each other: after two [registerOnChange] the change hook
    calls the second callback only; a [registerOnTouched] after a
    [registerOnChange] leaves the change hook as it was; and the blur hook
    calls the touched callback, and nothing else, whether or not a change
    callback was registered after it. *)
Theorem hooks_hold_last_registered (a f1 f2 g : nat) (w : World) :
  let v := value (accessors w a) in
  let unchecks :=
    flat_map (uncheck_events w v) (filter (notified w a) (_accessors w)) in
  trace (host_change a (registerOnChange a f2 (registerOnChange a f1 w)))
  = trace w ++ Callback f2 v :: unchecks
  /\ trace (host_change a (registerOnTouched a g (registerOnChange a f1 w)))
     = trace w ++ Callback f1 v :: unchecks
  /\ trace (host_blur a (registerOnChange a f1 (registerOnTouched a g w)))
     = trace w ++ [Touched g]
  /\ trace (host_blur a (registerOnTouched a g w)) = trace w ++ [Touched g].
Proof.
  cbv zeta. split; [|split; [|split]].
  - assert (onChange (accessors (registerOnChange a f2 (registerOnChange a f1 w)) a)
            = OnChange f2 a) as Hhook.
    { unfold registerOnChange at 1. unfold with_accessor. cbn [accessors].
      now rewrite store_same. }
    exact (proj2 (host_change_trace a f2 w _
                    (registerOnChange_keeps_view w _ a f2
                       (registerOnChange_keeps_view w w a f1 (same_view_refl w)))
                    eq_refl Hhook)).
  - assert (onChange (accessors (registerOnTouched a g (registerOnChange a f1 w)) a)
            = OnChange f1 a) as Hhook.
    { unfold registerOnTouched, registerOnChange, with_accessor. cbn [accessors].
      now rewrite !store_same. }
    exact (proj2 (host_change_trace a f1 w _
                    (registerOnTouched_keeps_view w _ a g
                       (registerOnChange_keeps_view w w a f1 (same_view_refl w)))
                    eq_refl Hhook)).
  - unfold host_blur, registerOnChange, registerOnTouched, with_accessor.
    cbn [accessors]. now rewrite !store_same.
  - unfold host_blur, registerOnTouched, with_accessor.
    cbn [accessors]. now rewrite store_same.
Qed.

(* ================================================================= *)
(** ** More on writeValue *)

Lemma strict_eq_refl (v : Js.value) :
  is_number v = false -> Js.strict_eq v v = true.
Proof.
  destruct v; cbn; intros H; trivial; try discriminate.
  - apply Bool.eqb_reflx.
  - apply String.eqb_refl.
  - apply Nat.eqb_refl.
Qed.

(** X17.  Writing to an accessor the value it declares checks it, when
    that value is not a number (a declared NaN is [===] to nothing, so
    such a radio is never checked by a write). *)
Theorem writeValue_own_value_checks (this : nat) (w : World) :
  is_number (value (accessors w this)) = false ->
  checked (writeValue this (value (accessors w this)) w) this = true.
Proof.
  intros H. unfold checked, writeValue, emit, with_accessor. cbn [accessors].
  rewrite store_same. cbn [_state set_state].
  now rewrite strict_eq_refl.
Qed.

Lemma writeValue_own_value_checks_witness :
  is_number (value (accessors colours_world 1)) = false
  /\ checked (writeValue 1 (value (accessors colours_world 1)) colours_world) 1 = true.
Proof.
  split; [reflexivity|].
  exact (writeValue_own_value_checks 1 colours_world eq_refl).
Defined.

(* ================================================================= *)
(** ** More on the group test *)

Lemma ref_eq_sym (x y : option nat) : Js.ref_eq x y = Js.ref_eq y x.
Proof. destruct x, y; cbn; trivial. apply Nat.eqb_sym. Qed.

Lemma str_eq_sym (x y : Js.str) : Js.str_eq x y = Js.str_eq y x.
Proof. destruct x, y; cbn; trivial. apply String.eqb_sym. Qed.

(** X18.  For two accessors that are paired with their own controls, both
    resolved, the test of [select] is symmetric: [select(a)] notifies the
    pairing of [b] exactly when [select(b)] notifies the pairing of [a]. *)
Theorem notified_symmetric (w : World) (a b : nat) :
  resolved w (_control (accessors w a), a) = true ->
  resolved w (_control (accessors w b), b) = true ->
  notified w a (_control (accessors w b), b) = notified w b (_control (accessors w a), a).
Proof.
  intros Ha Hb. unfold notified.
  rewrite !isSameGroup_resolved_same_group, Ha, Hb. unfold same_group. cbn [fst snd andb].
  now rewrite ref_eq_sym, str_eq_sym, Nat.eqb_sym.
Qed.

Lemma notified_symmetric_witness :
  resolved colours_world (_control (accessors colours_world 1), 1) = true
  /\ resolved colours_world (_control (accessors colours_world 2), 2) = true
  /\ notified colours_world 1 (_control (accessors colours_world 2), 2)
     = notified colours_world 2 (_control (accessors colours_world 1), 1).
Proof.
  split; [reflexivity|]. split; [reflexivity|].
  exact (notified_symmetric colours_world 1 2 eq_refl eq_refl).
Defined.
